(** * The in-page userscript engine ([src/injected/web/index.js])

    A shallow embedding of the callback registry, the value store cache,
    the capability sandbox builder and the execution scheduler, followed by
    the properties established about them.

    Conventions of the embedding.
    - A JavaScript object used as a map is a finite map over its own
      properties together with what it inherits: the objects written [{}]
      in the source and the objects received from the host have
      [Object.prototype] as their prototype, so [obj[name]] and
      [name in obj] also find the members listed in
      [object_prototype_names], and an assignment to [__proto__] goes to
      the accessor of that name.  [store.callbacks] is keyed by the numbers
      of [addCallback] and by the strings of [getUniqId('VMcb')], and the
      outer maps [store.values], [data.values] and [updates] by the numeric
      ids of scripts; none of these keys is such a name.
    - Mutable state shared between functions is threaded explicitly.
    - A function value supplied by a script or by the page is opaque: it is
      named by a number, calling it is recorded in a trace, and whether it
      throws is given by the environment. *)

From stdpp Require Import base option list gmap strings pretty.
From Stdlib Require Import ZArith Lia Ascii.

Open Scope string_scope.
Open Scope list_scope.
Open Scope Z_scope.

(** ** JavaScript values that cross the bridge *)

Inductive val :=
| VUndefined
| VNull
| VBool (b : bool)
| VNum (n : Z)
| VStr (s : string)
| VRef (r : nat)
| VMember (name : string).
    (** the member of [Object.prototype] of that name *)

#[global] Instance val_eq_dec : EqDecision val.
Proof. solve_decision. Defined.

(** [ToBoolean] on the values of the model. *)
Definition truthy (v : val) : bool :=
  match v with
  | VUndefined | VNull => false
  | VBool b => b
  | VNum n => negb (Z.eqb n 0)
  | VStr s => negb (String.eqb s EmptyString)
  | VRef _ => true
  | VMember _ => true
  end.

(** What a call does to control flow. *)
Inductive outcome (S : Type) :=
| Returned (s : S)
| Threw (s : S).
Arguments Returned {S} s.
Arguments Threw {S} s.

Definition state_of {S} (o : outcome S) : S :=
  match o with Returned s | Threw s => s end.

Definition threw {S} (o : outcome S) : bool :=
  match o with Returned _ => false | Threw _ => true end.

(** ** What every object inherits *)

(** The property names of [Object.prototype], as the language defines
    it; a page that has added members of its own to [Object.prototype] is
    not covered.  [__proto__] is an accessor: reading it gives the
    prototype, assigning an object or [null] to it replaces the prototype
    and assigning anything else does nothing.  The other members are
    functions. *)
Definition object_prototype_names : list string :=
  [ "constructor"; "__defineGetter__"; "__defineSetter__"; "hasOwnProperty";
    "__lookupGetter__"; "__lookupSetter__"; "isPrototypeOf";
    "propertyIsEnumerable"; "toString"; "valueOf"; "__proto__";
    "toLocaleString" ].

(** [name in {}] *)
Definition inherited (name : string) : bool :=
  bool_decide (name ∈ object_prototype_names).

(** What [func()] does when [func] is the member of that name taken off
    an object: a call with no receiver and no argument.  [Object()]
    returns a new object, [toString()] returns a string and
    [isPrototypeOf()] returns [false]; every other function converts its
    receiver to an object first, which throws for [undefined]; the value
    read from [__proto__] is an object and calling it throws. *)
Definition member_call_throws (name : string) : bool :=
  negb (bool_decide (name ∈ ["constructor"; "toString"; "isPrototypeOf"])).

(** The collaborators that are not part of [index.js]. *)
Class Host := {
  (** [getUniqId(prefix)] of [../utils]: the prefix followed by a suffix
      that the model takes from the environment, one per draw. *)
  uniq_suffix : nat -> string;
  (** [document.getElementById]. *)
  getElementById : val -> val;
  (** whether the opaque function [f] throws on argument [v]. *)
  user_throws : nat -> val -> bool;
  (** [process.env.DEBUG]. *)
  DEBUG : bool
}.

(** ** Callback registry ([store.callbacks], [store.lastCallbackId]) *)

Module Registry.

(** A property key of [store.callbacks]: the number allocated by
    [addCallback], or the string made by [getUniqId].  A string of the
    form [VMcb...] is never the decimal form of a number, so the two kinds
    of key are kept apart. *)
Definition key : Type := Z + string.
Definition KNum (n : Z) : key := inl n.
Definition KStr (s : string) : key := inr s.

(** [requestId && ...]: the truth value of a key received from the host. *)
Definition key_truthy (k : key) : bool :=
  match k with
  | inl n => negb (Z.eqb n 0)
  | inr s => negb (String.eqb s EmptyString)
  end.

(** The function values stored in the registry. *)
Inductive cont :=
| UserFn (f : nat)
    (** a function supplied by a script or the page *)
| OneShot (callbackId : string) (callback : cont)
    (** the arrow function built by [registerCallback] *)
| StyleResolver (cell : nat).
    (** the arrow function built by [GM_addStyle] *)

(** The variables captured by one call of [GM_addStyle]:
    [let el = false] and [const callbacks = []]. *)
Record style_cell := StyleCell {
  el : option val;            (* [None] is the initial [false] *)
  cell_callbacks : list nat   (* functions passed to [then] *)
}.

Inductive message :=
| PostCommand (cmd : string) (requestId : Z)
| AddStyle (css : string) (callbackId : string).

Inductive event :=
| Called (f : nat) (arg : val).

Record store := Store {
  callbacks : gmap key cont;
  lastCallbackId : Z;
  cells : list style_cell;
  draws : nat;                (* calls of [getUniqId] so far *)
  posted : list message;      (* [bridge.post], oldest first *)
  trace : list event          (* calls of opaque functions, oldest first *)
}.

Definition init : store :=
  Store ∅ 0 [] 0%nat [] [].

Definition set_callbacks (f : gmap key cont -> gmap key cont) (s : store) :=
  Store (f (callbacks s)) (lastCallbackId s) (cells s) (draws s)
        (posted s) (trace s).

Definition set_cells (f : list style_cell -> list style_cell) (s : store) :=
  Store (callbacks s) (lastCallbackId s) (f (cells s)) (draws s)
        (posted s) (trace s).

Definition post (m : message) (s : store) :=
  Store (callbacks s) (lastCallbackId s) (cells s) (draws s)
        (posted s ++ [m]) (trace s).

Definition record (e : event) (s : store) :=
  Store (callbacks s) (lastCallbackId s) (cells s) (draws s)
        (posted s) (trace s ++ [e]).

(** [addCallback(callback)]; [None] stands for an argument whose
    [typeof] is not ['function']. *)
Definition addCallback (callback : option cont) (s : store) : Z * store :=
  match callback with
  | None => (-1, s)
  | Some c =>
      let requestId := lastCallbackId s + 1 in
      (requestId,
       Store (<[KNum requestId := c]> (callbacks s)) requestId (cells s)
             (draws s) (posted s) (trace s))
  end.

Section WithHost.
Context `{Host}.

Definition getUniqId (prefix : string) (s : store) : string * store :=
  (prefix +:+ uniq_suffix (draws s),
   Store (callbacks s) (lastCallbackId s) (cells s) (S (draws s))
         (posted s) (trace s)).

(** Calling an opaque function. *)
Definition call_user (f : nat) (arg : val) (s : store) : outcome store :=
  let s' := record (Called f arg) s in
  if user_throws f arg then Threw s' else Returned s'.

(** [list.forEach(callback => callback(arg))] over opaque functions:
    the first one that throws ends the loop. *)
Fixpoint forEach_call (fs : list nat) (arg : val) (s : store)
  : outcome store :=
  match fs with
  | [] => Returned s
  | f :: fs' =>
      match call_user f arg s with
      | Returned s' => forEach_call fs' arg s'
      | Threw s' => Threw s'
      end
  end.

(** [array.splice()] with no argument: nothing is removed, the result
    is the empty array of removed elements. *)
Definition splice_noargs {A} (l : list A) : list A * list A :=
  ([], l).

(** Applying a stored function to one argument. *)
Fixpoint invoke (c : cont) (arg : val) (s : store) : outcome store :=
  match c with
  | UserFn f => call_user f arg s
  | OneShot callbackId callback =>
      (* payload => { callback(payload);
                      delete store.callbacks[callbackId]; } *)
      match invoke callback arg s with
      | Returned s' =>
          Returned (set_callbacks (delete (KStr callbackId)) s')
      | Threw s' => Threw s'
      end
  | StyleResolver cell =>
      (* styleId => { el = document.getElementById(styleId);
                      callbacks.splice().forEach(cb => cb(el)); } *)
      match cells s !! cell with
      | None => Returned s
      | Some c =>
          let e := getElementById arg in
          let '(removed, rest) := splice_noargs (cell_callbacks c) in
          let s1 := set_cells (<[cell := StyleCell (Some e) rest]>) s in
          forEach_call removed e s1
      end
  end.

(** [handleCallback(requestId, result)]. *)
Definition handleCallback (requestId : key) (result : val) (s : store)
  : outcome store :=
  if key_truthy requestId then
    match callbacks s !! requestId with
    | Some callback =>
        invoke callback result (set_callbacks (delete requestId) s)
    | None => Returned s
    end
  else Returned s.

(** [postCommandWithCallback(cmd, callback, data)]. *)
Definition postCommandWithCallback (cmd : string) (callback : option cont)
    (s : store) : store :=
  let '(requestId, s1) := addCallback callback s in
  post (PostCommand cmd requestId) s1.

(** [handlers.Callback({ callbackId, payload })]. *)
Definition handlers_Callback (callbackId : key) (payload : val) (s : store)
  : outcome store :=
  match callbacks s !! callbackId with
  | Some func => invoke func payload s
  | None => Returned s
  end.

(** [handlers.CommandResponse({ result, requestId })]. *)
Definition handlers_CommandResponse (result : val) (requestId : key)
    (s : store) : outcome store :=
  handleCallback requestId result s.

(** [registerCallback(callback)]. *)
Definition registerCallback (callback : cont) (s : store)
  : string * store :=
  let '(callbackId, s1) := getUniqId "VMcb" s in
  (callbackId,
   set_callbacks (<[KStr callbackId := OneShot callbackId callback]>) s1).

(** [GM_addStyle(css)]: the result names the captured variables of the
    returned thenable. *)
Definition GM_addStyle (css : string) (s : store) : nat * store :=
  let cell := length (cells s) in
  let s1 := set_cells (fun cs => cs ++ [StyleCell None []]) s in
  let '(callbackId, s2) := registerCallback (StyleResolver cell) s1 in
  (cell, post (AddStyle css callbackId) s2).

(** [thenable.then(callback)] on the object returned by [GM_addStyle]. *)
Definition style_then (cell : nat) (callback : nat) (s : store)
  : outcome store :=
  match cells s !! cell with
  | None => Returned s
  | Some c =>
      match el c with
      | Some e => call_user callback e s
      | None =>
          Returned
            (set_cells
               (<[cell := StyleCell None (cell_callbacks c ++ [callback])]>)
               s)
      end
  end.

(** One turn of the page: a call made by a script or a message
    delivered by the host.  An exception that escapes a turn is
    reported by the page and the next turn starts from the state the
    failed one left. *)
Inductive turn :=
| TAdd (cmd : string) (callback : option cont)
| TResponse (requestId : key) (result : val)
| TCallback (callbackId : key) (payload : val)
| TRegister (callback : cont)
| TAddStyle (css : string)
| TThen (cell : nat) (callback : nat).

Definition step (t : turn) (s : store) : store :=
  match t with
  | TAdd cmd c => postCommandWithCallback cmd c s
  | TResponse k r => state_of (handlers_CommandResponse r k s)
  | TCallback k p => state_of (handlers_Callback k p s)
  | TRegister c => snd (registerCallback c s)
  | TAddStyle css => snd (GM_addStyle css s)
  | TThen cell f => state_of (style_then cell f s)
  end.

Fixpoint run_turns (ts : list turn) (s : store) : store :=
  match ts with
  | [] => s
  | t :: ts' => run_turns ts' (step t s)
  end.

(** The request ids handed out by [addCallback] during a run, in order
    (the sentinel [-1] is not an allocation). *)
Fixpoint allocated (ts : list turn) (s : store) : list Z :=
  match ts with
  | [] => []
  | t :: ts' =>
      match t with
      | TAdd _ (Some c) => [fst (addCallback (Some c) s)]
      | _ => []
      end ++ allocated ts' (step t s)
  end.

End WithHost.

Definition called_fn (e : event) : nat :=
  match e with Called g _ => g end.

(** How many times the opaque function [f] has been called. *)
Definition calls_of (f : nat) (s : store) : nat :=
  length (filter (fun g => g = f) (called_fn <$> trace s)).

End Registry.

(** ** Value store cache ([store.values] and the [GM_*Value] functions) *)

(** [jsonDump], [jsonLoad] of [../utils/helpers] and the built-in [Number]
    are not part of [index.js]; they are taken as given. *)
Class Codec := {
  json : Type;                          (* what a script passes to [GM_setValue] *)
  number : Type;
  jsonDump : json -> option string;     (* [None]: the result is [undefined] *)
  jsonLoad : string -> option json;     (* [None]: the parser throws *)
  Number : string -> number
}.

Module Values.

(** A stored entry: [value[key] = raw] stores a string or [null]. *)
Inductive raw :=
| RawNull
| RawText (s : string).

Inductive message :=
| UpdateValue (id : Z) (key : string) (value : option raw).

(** [store.values]: for each script id the own properties of its value
    object.  Such an object arrives from the host with [Object.prototype]
    as its prototype and keeps it until [null] is assigned to its
    [__proto__]; [detached] holds the ids of the objects that have lost
    their prototype. *)
Record store := Store {
  values : gmap Z (gmap string raw);   (* [store.values] *)
  detached : gset Z;
  posted : list message                (* [bridge.post], oldest first *)
}.

Section WithCodec.
Context `{Codec}.

(** What [GM_getValue] can return. *)
Inductive result :=
| FromJson (j : json)
| FromText (s : string)
| FromNumber (n : number)
| FromBool (b : bool)
| Undefined.

(** [dataDecoders[type]] applied inside [try]: a decoder that throws
    leaves the sliced text in place. *)
Definition decode (type : ascii) (text : string) : result :=
  if Ascii.eqb type "o"%char then
    match jsonLoad text with
    | Some j => FromJson j
    | None => FromText text
    end
  else if Ascii.eqb type "n"%char then FromNumber (Number text)
  else if Ascii.eqb type "b"%char then FromBool (String.eqb text "true")
  else FromText text.

(** [loadValues()] is [store.values[script.props.id]]; when that is
    [undefined] the property access that follows throws, which is the
    [None] result below. *)
Definition loadValues (id : Z) (s : store) : option (gmap string raw) :=
  values s !! id.

Definition dumpValue (id : Z) (key : string) (value : option raw)
    (s : store) : store :=
  Store (values s) (detached s) (posted s ++ [UpdateValue id key value]).

(** Whether the value object of the script still has [Object.prototype]
    behind it. *)
Definition has_prototype (id : Z) (s : store) : bool :=
  negb (bool_decide (id ∈ detached s)).

(** [GM_getValue(key, def)]; the result [None] stands for an exception.
    [value[key]] is the own property when there is one; otherwise, for
    the name of a member of [Object.prototype] on an object that still has
    its prototype, it is that member, which is truthy and has no [slice]:
    [raw.slice(1)] throws, before the [try]. *)
Definition GM_getValue (id : Z) (key : string) (def : result) (s : store)
  : option result :=
  value ← loadValues id s;
  match value !! key with
  | Some (RawText (String type text)) => Some (decode type text)
  | Some _ => Some def
  | None => if has_prototype id s && inherited key then None else Some def
  end.

(** [value[key] = raw].  An object with no own property [__proto__] that
    has its prototype takes the assignment to [__proto__] through the
    inherited accessor: [null] removes the prototype, a string is
    ignored, and no own property is made in either case. *)
Definition assign (id : Z) (value : gmap string raw) (key : string)
    (r : raw) (s : store) : store :=
  if String.eqb key "__proto__" && has_prototype id s
     && negb (bool_decide (is_Some (value !! key)))
  then match r with
       | RawNull => Store (values s) ({[id]} ∪ detached s) (posted s)
       | RawText _ => s
       end
  else Store (<[id := <[key := r]> value]> (values s)) (detached s)
             (posted s).

(** [GM_setValue(key, val)]; the result [None] stands for an exception. *)
Definition GM_setValue (id : Z) (key : string) (val : json) (s : store)
  : option store :=
  let raw :=
    match jsonDump val with
    | Some (String c d) => RawText ("o" +:+ String c d)
    | _ => RawNull
    end in
  value ← loadValues id s;
  Some (dumpValue id key (Some raw) (assign id value key raw s)).

(** [GM_deleteValue(key)]: [delete value[key]] removes an own property
    and nothing else. *)
Definition GM_deleteValue (id : Z) (key : string) (s : store)
  : option store :=
  value ← loadValues id s;
  Some (dumpValue id key None
          (Store (<[id := delete key value]> (values s)) (detached s)
                 (posted s))).

Definition GM_listValues (id : Z) (s : store) : option (list string) :=
  value ← loadValues id s;
  Some (map fst (map_to_list value)).

(** [handlers.UpdatedValues(updates)]: the object sent by the host
    takes the place of the old one, prototype included. *)
Definition handlers_UpdatedValues (updates : list (Z * gmap string raw))
    (s : store) : store :=
  foldl (fun s '(id, m) =>
           match values s !! id with
           | Some _ =>
               Store (<[id := m]> (values s)) (detached s ∖ {[id]})
                     (posted s)
           | None => s
           end) s updates.

(** A value survives [jsonDump] followed by [jsonLoad]. *)
Definition serializable (v : json) : Prop :=
  exists d, jsonDump v = Some d /\ d <> EmptyString /\ jsonLoad d = Some v.

End WithCodec.

End Values.

(** ** Capability sandbox builder ([wrapGM], [getWrapper]) *)

(** What the page and the other modules supply to the builder. *)
Class Page := {
  unsafeWindow : nat;               (* the reference held by [window] *)
  bridge_props : list string;       (* [bridge.props] *)
  bridge_version : string;          (* [bridge.version] *)
  (** the first group of the [==UserScript==] pattern in [code.match],
      the empty string when there is no match *)
  meta_block : string -> string;
  (** the functions imported from [./requests] and [./download]: one
      object each, whatever the number of sandboxes *)
  onRequestCreate : nat;
  onDownload : nat
}.

Module Sandbox.

(** *** Script descriptors *)

Record meta := Meta {
  grant : option (list string);
  require : option (list string);
  resources : option (list (string * string));
  exclude : list string;
  include : list string;
  match_ : list string;
  name : option string;
  namespace : option string;
  description : option string;
  version : option string;
  runAt : option string;
  run_at : option string        (* the older spelling [run-at] *)
}.

Record custom := Custom {
  pathMap : option (list (string * string));
  custom_name : option string;
  custom_runAt : option string;
  custom_run_at : option string (* the older spelling [run-at] *)
}.

Record script := Script {
  props_id : Z;
  props_uuid : string;
  script_meta : meta;
  script_custom : custom;
  config_shouldUpdate : bool
}.

Definition set_grant (g : list string) (sc : script) : script :=
  let m := script_meta sc in
  Script (props_id sc) (props_uuid sc)
    (Meta (Some g) (require m) (resources m) (exclude m) (include m)
          (match_ m) (name m) (namespace m) (description m) (version m)
          (runAt m) (run_at m))
    (script_custom sc) (config_shouldUpdate sc).

(** *** Objects *)

(** [GM_info]. *)
Record gm_info := GmInfo {
  info_uuid : string;
  scriptMetaStr : string;
  scriptWillUpdate : bool;
  scriptHandler : string;
  info_version : string;
  info_description : string;
  info_excludes : list string;
  info_includes : list string;
  info_matches : list string;
  info_name : string;
  info_namespace : string;
  info_resources : list (string * string);
  info_runAt : string;
  info_unwrap : bool;
  info_script_version : string
}.

(** A property of an object.  The members of [Object.prototype] are not
    objects of the heap: what [addProperty] writes on one of them
    ([prop.configurable = false]) is not recorded. *)
Inductive prop :=
| Data (v : val)
    (** an ordinary writable property *)
| Fixed (v : val)
    (** defined by [addProperty]: not writable, not configurable *)
| Protected (modified : bool) (value : val)
    (** accessor of [defineProtectedProperty] with its two variables *)
| Reacted.
    (** accessor of [defineReactedProperty] *)

Inductive obj :=
| Plain (props : gmap string prop)
| BoundFn (method : val)
    (** [(...args) => method.apply(unsafeWindow, args)] *)
| TabCloseFn
    (** [() => { bridge.post({ cmd: 'TabClose' }); }] *)
| CapabilityFn (capability : string) (toString : option nat)
    (** the [value] function that the literal [gmFunctions] makes for an
        entry *)
| ImportedFn (name : string) (toString : option nat)
    (** a function imported by [index.js] *)
| InfoObj (info : gm_info).

(** The [toString] of a function object of the last two kinds names the
    call of [wrapGM] whose [propertyToString] has been assigned to it, by
    the reference of the GM object of that call; [None] is the inherited
    [toString]. *)

(** The heap: a reference is a position, a new object goes to the end. *)
Abbreviation heap := (list obj).

Definition alloc (o : obj) (h : heap) : nat * heap :=
  (length h, h ++ [o]).

Definition props_of (r : nat) (h : heap) : gmap string prop :=
  match h !! r with
  | Some (Plain ps) => ps
  | _ => ∅
  end.

Section WithPage.
Context `{Page}.

(** [unsafeWindow[name]]; the properties that the heap gives for the
    real global object are all those that [window[name]] finds, whatever
    object of its prototype chain holds them. *)
Definition global_get (name : string) (h : heap) : val :=
  match props_of unsafeWindow h !! name with
  | Some (Data v) | Some (Fixed v) => v
  | _ => VUndefined
  end.

(** [unsafeWindow[name] = v], as the page or a reacted property does. *)
Definition global_set (name : string) (v : val) (h : heap) : heap :=
  <[unsafeWindow := Plain (<[name := Data v]> (props_of unsafeWindow h))]> h.

(** [value === unsafeWindow ? wrapper : value] *)
Definition rewrap (wrapper : nat) (value : val) : val :=
  if decide (value = VRef unsafeWindow) then VRef wrapper else value.

Definition blocked_names : list string := ["browser"].

Definition copied_names : list string := ["eval"].

Definition bound_names : list string :=
  [ "isFinite"; "isNaN"; "parseFloat"; "parseInt"; "decodeURI";
    "decodeURIComponent"; "encodeURI"; "encodeURIComponent";
    "addEventListener"; "alert"; "atob"; "blur"; "btoa"; "clearInterval";
    "clearTimeout"; "close"; "confirm"; "dispatchEvent"; "fetch"; "find";
    "focus"; "getComputedStyle"; "getDefaultComputedStyle";
    "getSelection"; "matchMedia"; "moveBy"; "moveTo"; "open";
    "openDialog"; "postMessage"; "print"; "prompt";
    "removeEventListener"; "requestAnimationFrame"; "resizeBy";
    "resizeTo"; "scroll"; "scrollBy"; "scrollByLines"; "scrollByPages";
    "scrollTo"; "setInterval"; "setTimeout"; "stop" ].

(** The body of the third [forEach] of [getWrapper]. *)
Definition bind_method (acc : gmap string prop * heap) (name : string)
  : gmap string prop * heap :=
  let '(w, h) := acc in
  let method := global_get name h in
  if truthy method then
    let '(f, h') := alloc (BoundFn method) h in
    (<[name := Data (VRef f)]> w, h')
  else (w, h).

(** The body of the last [forEach] of [getWrapper].  [name in wrapper]
    holds for an own property and for the name of a member of
    [Object.prototype], which [wrapper], written [{}], inherits. *)
Definition wrap_property (w : gmap string prop) (name : string)
  : gmap string prop :=
  if decide (is_Some (w !! name)) then w
  else if inherited name then w
  else if String.eqb (String.substring 0 2 name) "on" then <[name := Reacted]> w
  else <[name := Protected false VUndefined]> w.

(** [getWrapper(unsafeWindow)]: the reference of the new object and the
    heap that holds it. *)
Definition getWrapper (h : heap) : nat * heap :=
  let '(wrapper, h0) := alloc (Plain ∅) h in
  let w1 := foldl (fun w name => <[name := Data VUndefined]> w)
                  ∅ blocked_names in
  let w2 := foldl (fun w name => <[name := Data (global_get name h0)]> w)
                  w1 copied_names in
  let '(w3, h3) := foldl bind_method (w2, h0) bound_names in
  let w4 := foldl wrap_property w3 bridge_props in
  (wrapper, <[wrapper := Plain w4]> h3).

(** Reading [object[name]]. *)
Definition get_prop (object : nat) (name : string) (h : heap)
  : val * heap :=
  let ps := props_of object h in
  match ps !! name with
  | None => (if inherited name then VMember name else VUndefined, h)
  | Some (Data v) | Some (Fixed v) => (v, h)
  | Some (Protected modified value) =>
      let value' := if modified then value else global_get name h in
      (rewrap object value',
       <[object := Plain (<[name := Protected modified value']> ps)]> h)
  | Some Reacted => (rewrap object (global_get name h), h)
  end.

(** Writing [object[name] = v] for a name other than [__proto__]. *)
Definition set_prop (object : nat) (name : string) (v : val) (h : heap)
  : heap :=
  let ps := props_of object h in
  match ps !! name with
  | None | Some (Data _) => <[object := Plain (<[name := Data v]> ps)]> h
  | Some (Fixed _) => h
  | Some (Protected _ _) =>
      <[object := Plain (<[name := Protected true v]> ps)]> h
  | Some Reacted => global_set name v h
  end.

(** *** Using one property of a view over time *)

Inductive action :=
| Read                    (* the script evaluates [wrapper[name]] *)
| Write (v : val)         (* the script assigns [wrapper[name] = v] *)
| PageWrite (v : val).    (* the page assigns [window[name] = v] *)

(** The values the script reads, in order. *)
Fixpoint observe (view : nat) (name : string) (acts : list action)
    (h : heap) : list val :=
  match acts with
  | [] => []
  | Read :: rest =>
      let '(v, h') := get_prop view name h in
      v :: observe view name rest h'
  | Write v :: rest => observe view name rest (set_prop view name v h)
  | PageWrite v :: rest => observe view name rest (global_set name v h)
  end.




(** *** [wrapGM] *)

(** [!grant.length || (grant.length === 1 && grant[0] === 'none')] *)
Definition no_grant (grant : list string) : bool :=
  match grant with
  | [] => true
  | [g] => String.eqb g "none"
  | _ => false
  end.

(** [includes(list, x)] of [../utils/helpers]. *)
Definition includes (l : list string) (x : string) : bool :=
  bool_decide (x ∈ l).

(** [if (!includes(grant, x)) grant.push(x)] *)
Definition push_missing (x : string) (grant : list string) : list string :=
  if includes grant x then grant else grant ++ [x].

(** The grant list after [pop] and the two [push]es of [wrapGM]. *)
Definition normalised (g : list string) : list string :=
  push_missing "GM_info"
    (push_missing "unsafeWindow"
       (if no_grant g then removelast g else g)).

Definition or_empty (o : option string) : string := default EmptyString o.

Definition gmInfo (sc : script) (code : string) : gm_info :=
  let m := script_meta sc in
  GmInfo (props_uuid sc) (meta_block code) (config_shouldUpdate sc)
         "AceScript" bridge_version
         (or_empty (description m)) (exclude m) (include m) (match_ m)
         (or_empty (name m)) (or_empty (namespace m))
         (default [] (resources m)) (or_empty (runAt m)) false
         (or_empty (version m)).

(** The keys of [gmFunctions] whose value is a function. *)
Definition function_names : list string :=
  [ "GM_deleteValue"; "GM_getValue"; "GM_listValues"; "GM_setValue";
    "GM_getResourceText"; "GM_getResourceURL"; "GM_addStyle"; "GM_log";
    "GM_openInTab"; "GM_registerMenuCommand"; "GM_unregisterMenuCommand";
    "GM_xmlhttpRequest"; "GM_download"; "GM_notification";
    "GM_setClipboard"; "AWE_engineStatus"; "AWE_startJsPlayer";
    "AWE_getAvailablePlayers"; "AWE_openInPlayer"; "AWE_getDeviceId";
    "AWE_registerContextMenuCommand"; "AWE_getLocale"; "AWE_getConfig" ].

(** All the keys of [gmFunctions]. *)
Definition known_names : list string :=
  "unsafeWindow" :: "GM_info" :: function_names.

(** One entry of the literal: [GM_xmlhttpRequest] and [GM_download] hold
    the imported functions, every other name a function made here. *)
Definition add_function (acc : gmap string val * heap) (name : string)
  : gmap string val * heap :=
  let '(t, h) := acc in
  if String.eqb name "GM_xmlhttpRequest" then
    (<[name := VRef onRequestCreate]> t, h)
  else if String.eqb name "GM_download" then
    (<[name := VRef onDownload]> t, h)
  else
    let '(f, h') := alloc (CapabilityFn name None) h in
    (<[name := VRef f]> t, h').

(** The own properties of the object literal [gmFunctions], each entry
    reduced to its [value]. *)
Definition gmFunctions (info : nat) (h : heap) : gmap string val * heap :=
  foldl add_function
        (<["GM_info" := VRef info]>
           (<["unsafeWindow" := VRef unsafeWindow]> ∅), h)
        function_names.

(** [if (prop) Object.defineProperty(obj, name, prop)] for
    [prop = gmFunctions[name]].  For an entry of the literal the property
    holds its [value] and is neither writable nor configurable.  For the
    name of a member of [Object.prototype], [gmFunctions[name]] is that
    member: it is truthy and, read as a descriptor, it has no [value],
    [get] or [set], so the property is defined with the value
    [undefined]. *)
Definition define (table : gmap string val) (gm : gmap string prop)
    (name : string) : gmap string prop :=
  match table !! name with
  | Some v => <[name := Fixed v]> gm
  | None => if inherited name then <[name := Fixed VUndefined]> gm else gm
  end.

(** [f.toString = propertyToString] on a function that is the value of
    an entry of [gmFunctions], in the call of [wrapGM] whose GM object is
    [owner].  The other values of entries, the real global object and the
    info object, are not functions. *)
Definition relabel (owner : nat) (o : obj) : obj :=
  match o with
  | CapabilityFn c _ => CapabilityFn c (Some owner)
  | ImportedFn n _ => ImportedFn n (Some owner)
  | Plain _ | BoundFn _ | TabCloseFn | InfoObj _ => o
  end.

(** [if (typeof obj[name] === 'function')
       obj[name].toString = propertyToString] *)
Definition label (owner : nat) (table : gmap string val) (h : heap)
    (name : string) : heap :=
  match table !! name with
  | Some (VRef f) => alter (relabel owner) f h
  | _ => h
  end.

(** The body of [forEach(grant, ...)]: [addProperty(name, prop, gm)]
    when [gmFunctions[name]] is truthy. *)
Definition attach (owner : nat) (table : gmap string val)
    (acc : gmap string prop * heap) (name : string)
  : gmap string prop * heap :=
  (define table (fst acc) name, label owner table (snd acc) name).

Record wrapped := Wrapped {
  thisObj : nat;
  wrapper : nat
}.

(** [wrapGM(script, code, cache)].  The descriptor is returned because
    [grant] aliases [script.meta.grant] when that field is present, so
    [pop] and [push] change the descriptor itself.  [cache] is only
    captured by the resource functions and plays no part here. *)
Definition wrapGM (sc : script) (code : string) (h : heap)
  : script * wrapped * heap :=
  let '(gm, h1) := alloc (Plain ∅) h in
  let declared := grant (script_meta sc) in
  let grant0 := default [] declared in
  let none := no_grant grant0 in
  let grant1 := if none then removelast grant0 else grant0 in
  let '(this, h2) := if none then (gm, h1) else getWrapper h1 in
  let window := if none then unsafeWindow else this in
  let grant2 := push_missing "unsafeWindow" grant1 in
  let grant3 := push_missing "GM_info" grant2 in
  let h3 :=
    if includes grant3 "window.close" then
      let '(f, h') := alloc TabCloseFn h2 in
      set_prop window "close" (VRef f) h'
    else h2 in
  let '(info, h4) := alloc (InfoObj (gmInfo sc code)) h3 in
  let '(table, h5) := gmFunctions info h4 in
  let '(props, h6) :=
    foldl (attach gm table) (<["window" := Data (VRef window)]> ∅, h5)
          grant3 in
  let sc' :=
    match declared with
    | Some _ => set_grant grant3 sc
    | None => sc
    end in
  (sc', Wrapped this gm, <[gm := Plain props]> h6).


End WithPage.

End Sandbox.

(** ** Execution scheduler ([onLoadScripts], [run], [runCode]) *)

Module Scheduler.
Import Sandbox.

(** The three arrays of one call of [onLoadScripts]. *)
Inductive phase := Start | Idle | End_.

#[global] Instance phase_eq_dec : EqDecision phase.
Proof. solve_decision. Defined.

Record lists := Lists {
  start : list script;
  idle : list script;
  end_ : list script
}.

Definition get_list (p : phase) (l : lists) : list script :=
  match p with Start => start l | Idle => idle l | End_ => end_ l end.

Definition put_list (p : phase) (x : list script) (l : lists) : lists :=
  match p with
  | Start => Lists x (idle l) (end_ l)
  | Idle => Lists (start l) x (end_ l)
  | End_ => Lists (start l) (idle l) x
  end.

(** [a || b] on values that are a string or [undefined]. *)
Definition or_else (a b : option string) : option string :=
  match a with
  | Some (String _ _) => a
  | _ => b
  end.

(** [script.custom.runAt || script.custom['run-at']
     || script.meta.runAt || script.meta['run-at']] *)
Definition runAt_of (sc : script) : option string :=
  or_else (custom_runAt (script_custom sc))
    (or_else (custom_run_at (script_custom sc))
       (or_else (runAt (script_meta sc)) (run_at (script_meta sc)))).

(** [listMap[runAt] || end].  [listMap] is an object literal with the
    three keys below; for the name of a member of [Object.prototype]
    [listMap[runAt]] is that member, which is truthy and therefore the
    [list]: this is the result [None]. *)
Definition list_for (sc : script) : option phase :=
  match runAt_of sc with
  | Some r =>
      if String.eqb r "document-start" then Some Start
      else if String.eqb r "document-idle" then Some Idle
      else if String.eqb r "document-end" then Some End_
      else if inherited r then None
      else Some End_
  | None => Some End_
  end.

(** [script.custom.name || script.meta.name || script.props.id] *)
Definition name_of (sc : script) : string :=
  default (pretty (props_id sc))
          (or_else (custom_name (script_custom sc)) (name (script_meta sc))).

(** What [bridge.post] receives from [buildCode]; the argument names and
    the code text, built from the sandbox of [wrapGM], are left out. *)
Inductive message :=
| Inject (id : string) (script_id : Z) (fnId : string).

Inductive log :=
| ConsoleLog (text : string)
| ConsoleError (text : string).

(** The value a script body throws: [null] or [undefined]; a value for
    which building the report throws in turn (a symbol or an object
    without [toString], for which the template literal throws, or a value
    whose [message] cannot be read or converted); or a value with its
    string form and, when [e.message] is truthy, the string form of
    that. *)
Inductive thrown :=
| ThrownNullish
| ThrownUnprintable
| ThrownValue (text : string) (message : option string).

Record sched := Sched {
  state : bool;                        (* [let state = 0] *)
  envs : list lists;                   (* arrays of each [onLoadScripts] *)
  load : option nat;                   (* [bridge.load]: whose arrays *)
  timers : list nat;                   (* pending [setTimeout(run, 0, idle)] *)
  version : option string;             (* [bridge.version] *)
  values : gmap Z (gmap string Values.raw);
  draws : nat;                         (* calls of [getUniqId] *)
  attached : gmap string (string * string);  (* [fnId] to [id], [name] *)
  posted : list message;
  console : list log;
  executed : list string;              (* names of the bodies applied *)
  exposed : bool                       (* [window.external.AceScript] is defined *)
}.

(** A page on which nothing has happened yet: [window.external] has no
    property [AceScript]. *)
Definition init : sched :=
  Sched false [] None [] None ∅ 0%nat ∅ [] [] [] false.

Definition set_state (b : bool) (s : sched) : sched :=
  Sched b (envs s) (load s) (timers s) (version s) (values s) (draws s)
        (attached s) (posted s) (console s) (executed s) (exposed s).

Definition set_envs (f : list lists -> list lists) (s : sched) : sched :=
  Sched (state s) (f (envs s)) (load s) (timers s) (version s) (values s)
        (draws s) (attached s) (posted s) (console s) (executed s)
        (exposed s).

Definition set_timers (t : list nat) (s : sched) : sched :=
  Sched (state s) (envs s) (load s) t (version s) (values s) (draws s)
        (attached s) (posted s) (console s) (executed s) (exposed s).

Definition set_console (c : list log) (s : sched) : sched :=
  Sched (state s) (envs s) (load s) (timers s) (version s) (values s)
        (draws s) (attached s) (posted s) c (executed s) (exposed s).

Definition set_version (v : string) (s : sched) : sched :=
  Sched (state s) (envs s) (load s) (timers s) (Some v) (values s)
        (draws s) (attached s) (posted s) (console s) (executed s)
        (exposed s).

Definition newline : string := String (ascii_of_nat 10) EmptyString.

Section WithHost.
Context `{Host}.

(** [buildCode(script)]: two fresh names, the function attached under
    the second, and the [Inject] message. *)
Definition buildCode (sc : script) (s : sched) : sched :=
  let id := "VMin" +:+ uniq_suffix (draws s) in
  let fnId := "VMfn" +:+ uniq_suffix (S (draws s)) in
  Sched (state s) (envs s) (load s) (timers s) (version s) (values s)
        (S (S (draws s)))
        (<[fnId := (id, name_of sc)]> (attached s))
        (posted s ++ [Inject id (props_id sc) fnId])
        (console s) (executed s) (exposed s).

(** [while (list.length) buildCode(list.shift());] on the array [p] of
    the call [env]: each round stores the shortened array and then
    builds the element taken off. *)
Fixpoint run_from (l : list script) (env : nat) (p : phase) (s : sched)
  : sched :=
  match l with
  | [] => s
  | sc :: rest =>
      run_from rest env p
        (buildCode sc (set_envs (alter (put_list p rest) env) s))
  end.

Definition run (env : nat) (p : phase) (s : sched) : sched :=
  run_from (default [] (get_list p <$> envs s !! env)) env p s.

(** [bridge.load = () => { run(end); setTimeout(run, 0, idle); }] *)
Definition bridge_load (env : nat) (s : sched) : sched :=
  let s1 := run env End_ s in
  set_timers (timers s1 ++ [env]) s1.

(** [list.push(script); store.values[script.props.id] = ...] for the
    array [p]. *)
Definition push_script (data_values : gmap Z (gmap string Values.raw))
    (env : nat) (p : phase) (s : sched) (sc : script) : sched :=
  let s1 :=
    set_envs (alter (fun l => put_list p (get_list p l ++ [sc]) l) env) s in
  Sched (state s1) (envs s1) (load s1) (timers s1) (version s1)
        (match data_values !! props_id sc with
         | Some m => <[props_id sc := m]> (values s1)
         | None => delete (props_id sc) (values s1)
         end)
        (draws s1) (attached s1) (posted s1) (console s1) (executed s1)
        (exposed s1).

(** The body of [forEach(data.scripts, ...)]: when [list] is a member of
    [Object.prototype], [list.push] is not a function and the call
    throws before anything is stored. *)
Definition enlist (data_values : gmap Z (gmap string Values.raw))
    (env : nat) (s : sched) (sc : script) : outcome sched :=
  match list_for sc with
  | Some p => Returned (push_script data_values env p s sc)
  | None => Threw s
  end.

(** [forEach(data.scripts, ...)]: an exception ends the loop. *)
Fixpoint forEach_enlist (data_values : gmap Z (gmap string Values.raw))
    (env : nat) (scripts : list script) (s : sched) : outcome sched :=
  match scripts with
  | [] => Returned s
  | sc :: rest =>
      match enlist data_values env s sc with
      | Returned s' => forEach_enlist data_values env rest s'
      | Threw s' => Threw s'
      end
  end.

(** [onLoadScripts(data)] with its control flow; [ready] says whether
    [document.readyState] is [interactive] or [complete].
    [exposeAceScript()] defines [window.external.AceScript] with
    [Object.defineProperty] and a descriptor that holds only [value], so
    the property can be neither written nor redefined: the call throws
    when the property is already there, after [bridge.version] has been
    assigned and before anything else. *)
Definition onLoadScripts_outcome (data_version : string)
    (data_scripts : option (list script))
    (data_values : gmap Z (gmap string Values.raw))
    (ready : bool) (s : sched) : outcome sched :=
  let sv := set_version data_version s in
  if exposed sv then Threw sv
  else
    let env := length (envs sv) in
    let s0 :=
      Sched (state sv) (envs sv ++ [Lists [] [] []]) (Some env) (timers sv)
            (version sv) (values sv) (draws sv) (attached sv)
            (posted sv) (console sv) (executed sv) true in
    let finish s1 :=
      let s2 := if negb (state s1) && ready then set_state true s1 else s1 in
      if state s2 then bridge_load env s2 else s2 in
    match data_scripts with
    | Some scripts =>
        match forEach_enlist data_values env scripts s0 with
        | Returned s1 => Returned (finish (run env Start s1))
        | Threw s1 => Threw s1
        end
    | None => Returned (finish s0)
    end.

(** The state [onLoadScripts(data)] leaves behind, whether it returns
    or throws: what the next turn starts from. *)
Definition onLoadScripts (data_version : string)
    (data_scripts : option (list script))
    (data_values : gmap Z (gmap string Values.raw))
    (ready : bool) (s : sched) : sched :=
  state_of (onLoadScripts_outcome data_version data_scripts data_values
              ready s).

(** The [DOMContentLoaded] listener of [initialize], with the
    microtask it queues. *)
Definition onDOMContentLoaded (s : sched) : sched :=
  let s1 := set_state true s in
  match load s1 with
  | Some env => bridge_load env s1
  | None => s1
  end.

(** A pending timer fires: [run(idle)]. *)
Definition onTimer (s : sched) : sched :=
  match timers s with
  | [] => s
  | env :: rest => run env Idle (set_timers rest s)
  end.

(** [runCode(name, func, args, thisObj)]; [body] is what applying
    [func] does: it returns, or it throws the given value. *)
Definition runCode (name : string) (body : option thrown) (s : sched)
  : outcome sched :=
  let s1 :=
    if DEBUG
    then set_console (console s ++ [ConsoleLog ("Run script: " +:+ name)]) s
    else s in
  let s2 :=
    Sched (state s1) (envs s1) (load s1) (timers s1) (version s1)
          (values s1) (draws s1) (attached s1) (posted s1) (console s1)
          (executed s1 ++ [name]) (exposed s1) in
  match body with
  | None => Returned s2
  | Some ThrownNullish =>
      (* [e.message] on [null] or [undefined] throws inside [catch] *)
      Threw s2
  | Some ThrownUnprintable =>
      (* the template literal, or [e.message], throws inside [catch] *)
      Threw s2
  | Some (ThrownValue text message) =>
      let msg := "Error running script: " +:+ name +:+ newline +:+ text in
      let msg' :=
        match message with
        | Some m => msg +:+ newline +:+ m
        | None => msg
        end in
      Returned (set_console (console s2 ++ [ConsoleError msg']) s2)
  end.

(** The function attached under [fnId] is called; [defined] says
    whether [window[id]] holds the injected function. *)
Definition onInjected (fnId : string) (defined : bool)
    (body : option thrown) (s : sched) : outcome sched :=
  match attached s !! fnId with
  | Some (id, name) =>
      if defined then runCode name body s else Returned s
  | None => Returned s
  end.


(** One turn of the event loop. *)
Inductive turn :=
| TLoadScripts (data_version : string)
    (data_scripts : option (list script))
    (data_values : gmap Z (gmap string Values.raw)) (ready : bool)
| TDOMContentLoaded
| TTimer
| TInjected (fnId : string) (defined : bool) (body : option thrown).

Definition step (t : turn) (s : sched) : sched :=
  match t with
  | TLoadScripts v scripts vals ready => onLoadScripts v scripts vals ready s
  | TDOMContentLoaded => onDOMContentLoaded s
  | TTimer => onTimer s
  | TInjected fnId defined body => state_of (onInjected fnId defined body s)
  end.

Fixpoint run_turns (ts : list turn) (s : sched) : sched :=
  match ts with
  | [] => s
  | t :: ts' => run_turns ts' (step t s)
  end.

End WithHost.

(** The scripts handed to the host, in order. *)
Definition injected (s : sched) : list Z :=
  map (fun m => match m with Inject _ i _ => i end) (posted s).

(** The arrays of the call [env]. *)
Definition lists_at (env : nat) (s : sched) : lists :=
  default (Lists [] [] []) (envs s !! env).

(** The scripts of a list that go to the array [p], in their order. *)
Definition of_phase (p : phase) (scripts : list script) : list script :=
  filter (fun sc => list_for sc = Some p) scripts.

(** Every script of the list has a run-at value for which [listMap]
    gives one of the three arrays or nothing. *)
Definition all_listed (scripts : list script) : Prop :=
  Forall (fun sc => is_Some (list_for sc)) scripts.

Definition errors (s : sched) : list string :=
  omap (fun l => match l with ConsoleError t => Some t | _ => None end)
       (console s).

End Scheduler.

(** ** Menu commands ([store.commands]) *)

Module Menu.

(** What a script passes as [func]: a function, or some other value. *)
Inductive handler :=
| HandlerFn (f : nat)
| HandlerOther (v : val).

Inductive message :=
| RegisterMenu (key cap : string)
| UnregisterMenu (key cap : string).

Record store := Store {
  commands : gmap string handler;   (* [store.commands] *)
  posted : list message;            (* [bridge.post], oldest first *)
  ran : list nat                    (* functions called, oldest first *)
}.

(** [`${id}:${cap}`] for the numeric id of a script. *)
Definition command_key (id : Z) (cap : string) : string :=
  pretty id +:+ ":" +:+ cap.

(** [GM_registerMenuCommand(cap, func)] of the script [id]. *)
Definition GM_registerMenuCommand (id : Z) (cap : string) (func : handler)
    (s : store) : store :=
  let key := command_key id cap in
  Store (<[key := func]> (commands s)) (posted s ++ [RegisterMenu key cap])
        (ran s).

(** [GM_unregisterMenuCommand(cap)] of the script [id]. *)
Definition GM_unregisterMenuCommand (id : Z) (cap : string) (s : store)
  : store :=
  let key := command_key id cap in
  Store (delete key (commands s)) (posted s ++ [UnregisterMenu key cap])
        (ran s).

Section WithHost.
Context `{Host}.

(** [handlers.Command(data)]: [func()] on a truthy value that is not a
    function throws.  [store.commands] is written [{}], so for a key it
    does not hold itself [store.commands[data]] is the member of
    [Object.prototype] of that name when there is one, which is truthy
    and is called. *)
Definition handlers_Command (data : string) (s : store) : outcome store :=
  match commands s !! data with
  | Some (HandlerFn f) =>
      let s' := Store (commands s) (posted s) (ran s ++ [f]) in
      if user_throws f VUndefined then Threw s' else Returned s'
  | Some (HandlerOther v) => if truthy v then Threw s else Returned s
  | None =>
      if inherited data && member_call_throws data then Threw s
      else Returned s
  end.

End WithHost.

End Menu.

(** ** Resources ([GM_getResourceURL], [GM_getResourceText]) *)

(** What a property access on one of the maps involved gives, when it
    gives something: a string, or the member of [Object.prototype] of the
    given name. *)
Inductive item :=
| Text (s : string)
| Member (name : string).

(** [cache2blobUrl] of [../utils], the decoding chain
    [utf8decode(window.atob(...))] and the conversion of a built-in
    object to a property key are not part of [index.js]. *)
Class Blobs := {
  (** what the [n]-th call of [cache2blobUrl] returns for this argument,
      [None] when it throws *)
  cache2blobUrl : nat -> item -> option string;
  (** the decoded text, [None] when decoding throws *)
  decode_resource : string -> option string;
  (** the string that the member of that name becomes when it is used as
      a property key *)
  member_text : string -> string
}.

Module Resources.

(** What does not change during the life of one sandbox: the own
    properties of three objects that have [Object.prototype] behind
    them. *)
Record env := Env {
  resources : gmap string string;   (* [script.meta.resources || {}] *)
  pathMap : gmap string string;     (* [script.custom.pathMap || {}] *)
  cache : gmap string string        (* the [cache] argument of [wrapGM] *)
}.

(** [urls] is written [{}] and only strings are assigned to its
    properties, so it keeps its prototype. *)
Record state := State {
  urls : gmap string string;        (* [const urls = {}] *)
  created : nat                     (* calls of [cache2blobUrl] so far *)
}.

(** [obj[key]], and [key in obj] for [is_Some] of it. *)
Definition get (obj : gmap string string) (key : string) : option item :=
  match obj !! key with
  | Some s => Some (Text s)
  | None => if inherited key then Some (Member key) else None
  end.

(** The truth value of what a property access gave. *)
Definition holds (o : option item) : bool :=
  match o with
  | Some (Text s) => negb (String.eqb s EmptyString)
  | Some (Member _) => true
  | None => false
  end.

Section WithBlobs.
Context `{Blobs}.

(** The property key that a value stands for in [obj[value]]. *)
Definition key_of (i : item) : string :=
  match i with
  | Text s => s
  | Member name => member_text name
  end.

(** [cache[pathMap[key] || key]] *)
Definition cached (e : env) (key : item) : option item :=
  let mapped := get (pathMap e) (key_of key) in
  get (cache e) (key_of (if holds mapped then default key mapped else key)).

(** [urls[key] = blobUrl] for a string [blobUrl]: under the key
    [__proto__] the assignment goes to the inherited accessor, which
    ignores a string, unless [urls] has an own property of that name. *)
Definition remember (key : string) (blobUrl : string)
    (urls : gmap string string) : gmap string string :=
  if String.eqb key "__proto__" && negb (bool_decide (is_Some (urls !! key)))
  then urls
  else <[key := blobUrl]> urls.

Inductive url_result :=
| UrlUndefined
| UrlIs (blobUrl : item)
| UrlThrows.

(** [GM_getResourceURL(name)]. *)
Definition GM_getResourceURL (e : env) (name : string) (s : state)
  : url_result * state :=
  match get (resources e) name with
  | None => (UrlUndefined, s)
  | Some key =>
      let blobUrl := get (urls s) (key_of key) in
      if holds blobUrl then (UrlIs (default key blobUrl), s)
      else
        let raw := cached e key in
        if holds raw then
          match cache2blobUrl (created s) (default key raw) with
          | Some url =>
              (UrlIs (Text url),
               State (remember (key_of key) url (urls s)) (S (created s)))
          | None => (UrlThrows, State (urls s) (S (created s)))
          end
        else (UrlIs key, s)
  end.



End WithBlobs.

End Resources.

(** * Properties *)

(** ** Callback registry *)

Section RegistryFacts.
Import Registry.
Context `{Host}.

(** Keys made of numbers lie between 1 and the last allocated id. *)
Definition numbered_inv (s : store) : Prop :=
  0 <= lastCallbackId s /\
  forall n c, callbacks s !! KNum n = Some c -> 1 <= n <= lastCallbackId s.

(** Calls only add to the trace. *)
Definition same_registry (s s' : store) : Prop :=
  lastCallbackId s' = lastCallbackId s /\
  callbacks s' ⊆ callbacks s.

Lemma same_registry_refl s : same_registry s s.
Proof. split; [reflexivity | apply map_subseteq_po]. Qed.

Lemma same_registry_trans s1 s2 s3 :
  same_registry s1 s2 -> same_registry s2 s3 -> same_registry s1 s3.
Proof.
  intros [E1 I1] [E2 I2]. split; [congruence |].
  etransitivity; eassumption.
Qed.

Lemma call_user_registry f arg s :
  callbacks (state_of (call_user f arg s)) = callbacks s /\
  lastCallbackId (state_of (call_user f arg s)) = lastCallbackId s /\
  cells (state_of (call_user f arg s)) = cells s.
Proof. unfold call_user. destruct (user_throws f arg); simpl; auto. Qed.

Lemma forEach_call_registry fs arg s :
  callbacks (state_of (forEach_call fs arg s)) = callbacks s /\
  lastCallbackId (state_of (forEach_call fs arg s)) = lastCallbackId s.
Proof.
  revert s. induction fs as [|f fs IH]; intros s; simpl; [auto |].
  pose proof (call_user_registry f arg s) as (Hc & Hl & _).
  destruct (call_user f arg s) as [s'|s']; simpl in *.
  - destruct (IH s') as [-> ->]. auto.
  - auto.
Qed.

Lemma invoke_registry c arg s :
  same_registry s (state_of (invoke c arg s)).
Proof.
  revert s. induction c as [f | id c IH | cell]; intros s; simpl.
  - destruct (call_user_registry f arg s) as (Hc & Hl & _).
    split; [assumption | rewrite Hc; reflexivity].
  - specialize (IH s). destruct (invoke c arg s) as [s'|s']; simpl in *.
    + destruct IH as [E I]. split; [assumption |].
      etransitivity; [apply delete_subseteq | exact I].
    + exact IH.
  - destruct (cells s !! cell) as [c|]; [| apply same_registry_refl].
    simpl.
    exact (same_registry_refl _).
Qed.

Lemma numbered_inv_shrink s s' :
  same_registry s s' -> numbered_inv s -> numbered_inv s'.
Proof.
  intros [E I] [H0 Hk]. split; [lia |].
  intros n c Hn. rewrite E. apply (Hk n c).
  eapply lookup_weaken; eassumption.
Qed.

Lemma numbered_inv_init : numbered_inv init.
Proof. split; [simpl; lia |]. intros n c Hn. discriminate Hn. Qed.

Lemma addCallback_inv c s :
  numbered_inv s -> numbered_inv (snd (addCallback c s)).
Proof.
  intros [H0 Hk]. destruct c as [c|]; simpl; [| split; assumption].
  split; simpl; [lia |].
  intros n c' Hn. destruct (decide (n = lastCallbackId s + 1)) as [->|Hne].
  - lia.
  - rewrite lookup_insert_ne in Hn by (unfold KNum; congruence).
    specialize (Hk n c' Hn). lia.
Qed.

Lemma step_inv t s : numbered_inv s -> numbered_inv (step t s).
Proof.
  intros Hs. destruct t as [cmd c | k r | k p | c | css | cell f]; simpl.
  - unfold postCommandWithCallback.
    pose proof (addCallback_inv c s Hs) as Ha.
    destruct (addCallback c s) as [id s1]. exact Ha.
  - unfold handlers_CommandResponse, handleCallback.
    destruct (key_truthy k); [| exact Hs].
    destruct (callbacks s !! k) as [cb|]; [| exact Hs].
    eapply numbered_inv_shrink; [apply invoke_registry |].
    eapply numbered_inv_shrink; [| exact Hs].
    split; [reflexivity | apply delete_subseteq].
  - unfold handlers_Callback.
    destruct (callbacks s !! k) as [cb|]; [| exact Hs].
    eapply numbered_inv_shrink; [apply invoke_registry | exact Hs].
  - destruct Hs as [H0 Hk]. split; [exact H0 |].
    intros n c' Hn. simpl in Hn.
    rewrite lookup_insert_ne in Hn by discriminate. eauto.
  - destruct Hs as [H0 Hk]. split; [exact H0 |].
    intros n c' Hn. simpl in Hn.
    rewrite lookup_insert_ne in Hn by discriminate. eauto.
  - unfold style_then. destruct (cells s !! cell) as [c|]; [| exact Hs].
    destruct (el c) as [e|]; [| exact Hs].
    destruct (call_user_registry f e s) as (Hc & Hl & _).
    destruct Hs as [H0 Hk]. split; [lia |].
    intros n c' Hn. rewrite Hc in Hn. rewrite Hl. eauto.
Qed.

Lemma run_turns_inv ts s : numbered_inv s -> numbered_inv (run_turns ts s).
Proof.
  revert s. induction ts as [|t ts IH]; intros s Hs; simpl; [exact Hs |].
  apply IH, step_inv, Hs.
Qed.

Lemma step_lastCallbackId t s :
  lastCallbackId (step t s) =
  match t with
  | TAdd _ (Some _) => lastCallbackId s + 1
  | _ => lastCallbackId s
  end.
Proof.
  destruct t as [cmd [c|] | k r | k p | c | css | cell f]; simpl;
    try reflexivity.
  - unfold handlers_CommandResponse, handleCallback.
    destruct (key_truthy k); [| reflexivity].
    destruct (callbacks s !! k) as [cb|]; [| reflexivity].
    destruct (invoke_registry cb r (set_callbacks (delete k) s)) as [E _].
    exact E.
  - unfold handlers_Callback.
    destruct (callbacks s !! k) as [cb|]; [| reflexivity].
    destruct (invoke_registry cb p s) as [E _]. exact E.
  - unfold style_then. destruct (cells s !! cell) as [c|]; [| reflexivity].
    destruct (el c) as [e|]; [| reflexivity].
    apply call_user_registry.
Qed.

Lemma allocated_from ts s :
  allocated ts s =
  seqZ (lastCallbackId s + 1) (Z.of_nat (length (allocated ts s))).
Proof.
  revert s. induction ts as [|t ts IH]; intros s; simpl; [reflexivity |].
  pose proof (step_lastCallbackId t s) as Hl.
  specialize (IH (step t s)). rewrite Hl in IH.
  set (rest := allocated ts (step t s)) in *.
  destruct t as [cmd [c|] | k r | k p | c | css | cell f];
    try exact IH.
  change ([lastCallbackId s + 1] ++ rest) with (lastCallbackId s + 1 :: rest).
  cbn [length].
  rewrite (seqZ_cons (lastCallbackId s + 1)) by lia.
  f_equal. rewrite IH at 1. f_equal; lia.
Qed.

Lemma run_turns_last ts s :
  lastCallbackId (run_turns ts s) =
  lastCallbackId s + Z.of_nat (length (allocated ts s)).
Proof.
  revert s. induction ts as [|t ts IH]; intros s; simpl; [lia |].
  rewrite IH, step_lastCallbackId, length_app.
  destruct t as [cmd [c|] | k r | k p | c | css | cell f]; simpl; lia.
Qed.

(** [C10] Request ids handed out by [addCallback] during any run that
    starts from the initial store are 1, 2, 3, ... in order, hence
    positive, strictly increasing and without repetition; in every state
    so reached neither 0 nor the sentinel -1 (the result for an argument
    that is not a function, which stores nothing) is a key of the
    registry, and [handleCallback] with request id 0 or -1 returns
    without calling anything and leaves the store as it was. *)
Theorem request_ids_fresh (ts : list turn) :
  let s := run_turns ts init in
  allocated ts init = seqZ 1 (Z.of_nat (length (allocated ts init))) /\
  NoDup (allocated ts init) /\
  Forall (fun n => 0 < n) (allocated ts init) /\
  (forall c, fst (addCallback (Some c) s) = lastCallbackId s + 1 /\
             Forall (fun n => n < fst (addCallback (Some c) s))
                    (allocated ts init)) /\
  addCallback None s = (-1, s) /\
  callbacks s !! KNum 0 = None /\
  callbacks s !! KNum (-1) = None /\
  (forall result, handleCallback (KNum 0) result s = Returned s) /\
  (forall result, handleCallback (KNum (-1)) result s = Returned s).
Proof.
  intros s.
  pose proof (allocated_from ts init) as Ha. simpl in Ha.
  pose proof (run_turns_inv ts init numbered_inv_init) as [H0 Hk].
  fold s in H0, Hk.
  assert (Hz : callbacks s !! KNum 0 = None).
  { destruct (callbacks s !! KNum 0) as [c|] eqn:E; [| reflexivity].
    specialize (Hk 0 c E). lia. }
  assert (Hm : callbacks s !! KNum (-1) = None).
  { destruct (callbacks s !! KNum (-1)) as [c|] eqn:E; [| reflexivity].
    specialize (Hk (-1) c E). lia. }
  pose proof (run_turns_last ts init) as Hlast. fold s in Hlast.
  simpl in Hlast.
  split_and!.
  - exact Ha.
  - rewrite Ha. apply NoDup_seqZ.
  - rewrite Ha. apply Forall_seqZ. intros; lia.
  - intros c. split; [reflexivity |].
    simpl. rewrite Ha. apply Forall_seqZ. intros m Hm'. lia.
  - reflexivity.
  - exact Hz.
  - exact Hm.
  - intros result. reflexivity.
  - intros result. unfold handleCallback. simpl. rewrite Hm. reflexivity.
Qed.

(** The closure built by [registerCallback] calls the wrapped function
    first, while its own entry is still in the registry, and removes the
    entry after the function has returned; so when the first delivery of a
    [Callback] message returns, the entry is gone and every later
    [Callback] message with the same id finds nothing to call and leaves
    the store as it is. *)
Lemma one_shot_once_when_returning (c : cont) (s : store) (payload : val)
    (s' : store) :
  let '(callbackId, s1) := registerCallback c s in
  invoke c payload s1 = Returned s' ->
  callbacks s1 !! KStr callbackId = Some (OneShot callbackId c) /\
  handlers_Callback (KStr callbackId) payload s1 =
    Returned (set_callbacks (delete (KStr callbackId)) s') /\
  forall payload',
    handlers_Callback (KStr callbackId) payload'
      (set_callbacks (delete (KStr callbackId)) s') =
    Returned (set_callbacks (delete (KStr callbackId)) s').
Proof.
  unfold registerCallback, getUniqId. cbn [fst snd].
  set (id := "VMcb" +:+ uniq_suffix (draws s)).
  set (s1 := set_callbacks _ _).
  intros Hret.
  assert (Hl : callbacks s1 !! KStr id = Some (OneShot id c)).
  { subst s1. cbn. apply lookup_insert_eq. }
  split; [exact Hl |]. split.
  - unfold handlers_Callback. rewrite Hl. cbn [invoke]. rewrite Hret.
    reflexivity.
  - intros payload'. unfold handlers_Callback. cbn.
    rewrite lookup_delete_eq. reflexivity.
Qed.

(** A turn in which nothing is registered for the id does nothing. *)
Lemma handlers_Callback_unknown k payload s :
  callbacks s !! k = None -> handlers_Callback k payload s = Returned s.
Proof. unfold handlers_Callback. intros ->. reflexivity. Qed.

(** [then] after the style element is known calls its argument at once
    with the element. *)
Lemma style_then_resolved cell e cbs f s :
  cells s !! cell = Some (StyleCell (Some e) cbs) ->
  style_then cell f s = call_user f e s /\
  trace (state_of (style_then cell f s)) = trace s ++ [Called f e].
Proof.
  intros Hc. unfold style_then. rewrite Hc. cbn [el].
  split; [reflexivity |].
  unfold call_user. destruct (user_throws f e); reflexivity.
Qed.

(** [C8] The code at the failing input: a function passed to [then]
    before the host has answered is queued, and when the [AddStyle]
    callback arrives the element is stored but the queue is left as it
    was and none of its functions is called. *)
Theorem addStyle_pending_then_not_called (css : string) (f : nat)
    (styleId : val) :
  let '(cell, s1) := GM_addStyle css init in
  let callbackId := "VMcb" +:+ uniq_suffix 0 in
  let s2 := state_of (style_then cell f s1) in
  let s3 := state_of (handlers_Callback (KStr callbackId) styleId s2) in
  posted s1 = [AddStyle css callbackId] /\
  cells s2 !! cell = Some (StyleCell None [f]) /\
  cells s3 !! cell = Some (StyleCell (Some (getElementById styleId)) [f]) /\
  trace s3 = [] /\
  calls_of f s3 = 0%nat.
Proof.
  simpl. unfold handlers_Callback, set_cells, post, set_callbacks. simpl.
  rewrite lookup_insert_eq. simpl. auto.
Qed.

End RegistryFacts.

(** An environment in which the function numbered 0 throws. *)
Definition throwing_host : Host :=
  {| uniq_suffix := fun n => "k" +:+ pretty n;
     getElementById := fun v => v;
     user_throws := fun f _ => Nat.eqb f 0;
     DEBUG := false |}.

Lemma one_shot_once_when_returning_witness :
  let '(callbackId, s1) :=
    @Registry.registerCallback throwing_host (Registry.UserFn 1) Registry.init in
  let s' := Registry.record (Registry.Called 1 VNull) s1 in
  Registry.callbacks s1 !! Registry.KStr callbackId
    = Some (Registry.OneShot callbackId (Registry.UserFn 1)) /\
  @Registry.handlers_Callback throwing_host (Registry.KStr callbackId) VNull s1
    = Returned (Registry.set_callbacks (delete (Registry.KStr callbackId)) s') /\
  forall payload',
    @Registry.handlers_Callback throwing_host (Registry.KStr callbackId)
      payload' (Registry.set_callbacks (delete (Registry.KStr callbackId)) s')
    = Returned (Registry.set_callbacks (delete (Registry.KStr callbackId)) s').
Proof.
  apply (@one_shot_once_when_returning throwing_host (Registry.UserFn 1)
           Registry.init VNull
           (Registry.record (Registry.Called 1 VNull)
              (snd (@Registry.registerCallback throwing_host
                      (Registry.UserFn 1) Registry.init)))).
  reflexivity.
Defined.


(** ** Value store cache *)

Section ValuesFacts.
Import Values.
Context `{Codec}.

Lemma decode_object (d : string) (v : json) :
  jsonLoad d = Some v -> decode "o"%char d = FromJson v.
Proof. unfold decode. simpl. intros ->. reflexivity. Qed.

(** A key other than [__proto__] is stored as an own property. *)
Lemma assign_plain id value key r s :
  key <> "__proto__" ->
  assign id value key r s
  = Store (<[id := <[key := r]> value]> (values s)) (detached s) (posted s).
Proof.
  intros Hk. unfold assign.
  destruct (String.eqb_spec key "__proto__"); [contradiction | reflexivity].
Qed.

(** Reading back goes through the cache only: no message is posted and
    the store is not changed by [GM_getValue]. *)
Lemma GM_getValue_other_key id key key' val def s s' :
  key <> key' -> key <> "__proto__" ->
  GM_setValue id key val s = Some s' ->
  GM_getValue id key' def s' = GM_getValue id key' def s.
Proof.
  intros Hne Hk. unfold GM_setValue, GM_getValue, loadValues.
  destruct (values s !! id) as [value|] eqn:E; simpl; [| discriminate].
  rewrite assign_plain by exact Hk.
  intros [= <-]. simpl. rewrite lookup_insert_eq. simpl.
  rewrite lookup_insert_ne by exact Hne. reflexivity.
Qed.

(** For a script whose cache entry exists and a key other than
    [__proto__], [GM_setValue(key, v)] with a value [v] that survives
    [jsonDump] and [jsonLoad] succeeds, and [GM_getValue(key)] on the
    resulting store returns [v] itself, whatever the default; the only
    message involved is the [UpdateValue] notification posted by the
    write, and no reply from the host is consulted. *)
Lemma set_then_get (id : Z) (key : string) (v : json) (def : result)
    (s : store) :
  is_Some (values s !! id) ->
  key <> "__proto__" ->
  serializable v ->
  exists s' raw,
    GM_setValue id key v s = Some s' /\
    GM_getValue id key def s' = Some (FromJson v) /\
    posted s' = posted s ++ [UpdateValue id key (Some raw)].
Proof.
  intros [value Hv] Hk (d & Hd & Hne & Hl).
  destruct d as [|c d]; [congruence |].
  unfold GM_setValue, GM_getValue, loadValues. rewrite Hd, Hv. simpl.
  rewrite assign_plain by exact Hk.
  eexists _, _. split; [reflexivity |]. simpl.
  rewrite lookup_insert_eq. simpl. rewrite lookup_insert_eq.
  split; [| reflexivity].
  f_equal. apply decode_object, Hl.
Qed.

End ValuesFacts.

(** A codec for the literals [null], [true] and [false]. *)
Definition literal_codec : Codec :=
  {| json := option bool;
     number := Z;
     jsonDump := fun v =>
       Some match v with
            | None => "null"
            | Some true => "true"
            | Some false => "false"
            end;
     jsonLoad := fun t =>
       if String.eqb t "null" then Some None
       else if String.eqb t "true" then Some (Some true)
       else if String.eqb t "false" then Some (Some false)
       else None;
     Number := fun _ => 0 |}.

Lemma set_then_get_witness :
  exists s' raw,
    @Values.GM_setValue literal_codec 7 "seen" (Some true)
      (Values.Store {[ 7 := ∅ ]} ∅ []) = Some s' /\
    @Values.GM_getValue literal_codec 7 "seen" (@Values.Undefined literal_codec) s'
      = Some (@Values.FromJson literal_codec (Some true)) /\
    Values.posted s' = [] ++ [Values.UpdateValue 7 "seen" (Some raw)].
Proof.
  apply (@set_then_get literal_codec 7 "seen" (Some true)
           (@Values.Undefined literal_codec) (Values.Store {[ 7 := ∅ ]} ∅ [])).
  - exists ∅. simpl. apply lookup_singleton_eq.
  - discriminate.
  - exists "true". repeat split. discriminate.
Defined.

(** [C5] The code at the failing input: the key [__proto__] and the value
    [true], which survives [jsonDump] and [jsonLoad], for a script whose
    cache entry is an empty object.  [GM_setValue] returns and tells the
    host, but the assignment [value['__proto__'] = 'otrue'] is taken by the
    accessor inherited from [Object.prototype] and stores nothing: the
    cache is as it was.  [GM_getValue] for the same key then finds the
    inherited member instead of a stored text and throws. *)
Theorem proto_key_is_not_read_back :
  let s := Values.Store {[ 7 := ∅ ]} ∅ [] in
  @Values.serializable literal_codec (Some true) /\
  exists s',
    @Values.GM_setValue literal_codec 7 "__proto__" (Some true) s = Some s' /\
    Values.values s' = Values.values s /\
    Values.posted s'
    = [Values.UpdateValue 7 "__proto__" (Some (Values.RawText "otrue"))] /\
    @Values.GM_getValue literal_codec 7 "__proto__"
      (@Values.Undefined literal_codec) s' = None.
Proof.
  split.
  - exists "true". repeat split. discriminate.
  - eexists. split; [vm_compute; reflexivity |]. vm_compute. auto.
Qed.

(** ** Capability sandbox builder *)

Section SandboxFacts.
Import Sandbox.
Context `{Page}.

(** *** The heap only grows *)

Lemma alloc_lookup_old o h r x :
  h !! r = Some x -> snd (alloc o h) !! r = Some x.
Proof. intros Hr. simpl. apply lookup_app_l_Some, Hr. Qed.

Lemma alloc_lookup_new o h : snd (alloc o h) !! fst (alloc o h) = Some o.
Proof. simpl. apply list_lookup_middle. reflexivity. Qed.

Lemma global_set_length name v h :
  length (global_set name v h) = length h.
Proof. unfold global_set. apply length_insert. Qed.

Lemma set_prop_length r name v h : length (set_prop r name v h) = length h.
Proof.
  unfold set_prop.
  destruct (props_of r h !! name) as [[]|];
    first [apply length_insert | apply global_set_length | reflexivity].
Qed.

Lemma bind_method_length acc name :
  (length (snd acc) <= length (snd (bind_method acc name)))%nat.
Proof.
  destruct acc as [w h]. unfold bind_method. simpl.
  destruct (truthy (global_get name h)); simpl; [| lia].
  rewrite length_app. simpl. lia.
Qed.

Lemma foldl_bind_method_length names acc :
  (length (snd acc) <= length (snd (foldl bind_method acc names)))%nat.
Proof.
  revert acc. induction names as [|n names IH]; intros acc; simpl.
  - reflexivity.
  - etransitivity; [apply (bind_method_length acc n) | apply IH].
Qed.

Lemma getWrapper_fst h : fst (getWrapper h) = length h.
Proof.
  unfold getWrapper. cbn [alloc].
  destruct (foldl bind_method _ bound_names) as [w3 h3]. reflexivity.
Qed.

Lemma getWrapper_length h :
  (S (length h) <= length (snd (getWrapper h)))%nat.
Proof.
  unfold getWrapper. cbn [alloc].
  match goal with
  | |- context [foldl bind_method ?a bound_names] =>
      pose proof (foldl_bind_method_length bound_names a) as Hl;
      destruct (foldl bind_method a bound_names) as [w3 h3]
  end.
  cbn [snd] in *. rewrite length_insert. rewrite length_app in Hl.
  simpl in Hl. lia.
Qed.

Lemma getWrapper_plain h :
  exists ps, snd (getWrapper h) !! fst (getWrapper h) = Some (Plain ps).
Proof.
  pose proof (getWrapper_fst h) as Hf.
  unfold getWrapper in *. cbn [alloc] in *.
  match goal with
  | |- context [foldl bind_method ?a bound_names] =>
      pose proof (foldl_bind_method_length bound_names a) as Hl;
      destruct (foldl bind_method a bound_names) as [w3 h3]
  end.
  cbn [fst snd] in *. eexists. apply list_lookup_insert_eq.
  rewrite length_app in Hl. simpl in Hl. lia.
Qed.

Lemma add_function_spec names t h :
  let r := foldl add_function (t, h) names in
  (length h <= length (snd r))%nat /\
  forall name, is_Some (fst r !! name) <-> is_Some (t !! name) \/ name ∈ names.
Proof.
  revert t h. induction names as [|n names IH]; intros t h; cbn [foldl].
  - split; [cbn; lia |]. intros name. rewrite elem_of_nil. tauto.
  - assert (E : exists v h', add_function (t, h) n = (<[n := v]> t, h') /\
                             (length h <= length h')%nat).
    { unfold add_function.
      destruct (String.eqb n "GM_xmlhttpRequest"); [eauto |].
      destruct (String.eqb n "GM_download"); [eauto |].
      cbn [alloc]. eexists _, _. split; [reflexivity |].
      rewrite length_app. cbn. lia. }
    destruct E as (v & h' & -> & Hh).
    specialize (IH (<[n := v]> t) h').
    cbv zeta in IH. destruct IH as [Hl Hk]. split.
    + cbv zeta. lia.
    + intros name. rewrite Hk, elem_of_cons.
      destruct (decide (name = n)) as [->|Hne].
      * rewrite lookup_insert_eq. split; [auto | intros _; left; eauto].
      * rewrite lookup_insert_ne by congruence. tauto.
Qed.

Lemma gmFunctions_known info h name :
  is_Some (fst (gmFunctions info h) !! name) <-> name ∈ known_names.
Proof.
  unfold gmFunctions, known_names.
  destruct (add_function_spec function_names
              (<["GM_info" := VRef info]>
                 (<["unsafeWindow" := VRef unsafeWindow]> ∅)) h) as [_ Hk].
  rewrite Hk, !elem_of_cons.
  destruct (decide (name = "GM_info")) as [->|H1].
  { rewrite lookup_insert_eq. split; [auto | intros _; left; eauto]. }
  rewrite lookup_insert_ne by congruence.
  destruct (decide (name = "unsafeWindow")) as [->|H2].
  { rewrite lookup_insert_eq. split; [auto | intros _; left; eauto]. }
  rewrite lookup_insert_ne by congruence.
  rewrite lookup_empty. split.
  - intros [[x Hx]|Hin]; [discriminate | auto].
  - intros [?|[?|?]]; [congruence | congruence | auto].
Qed.

Lemma gmFunctions_length info h :
  (length h <= length (snd (gmFunctions info h)))%nat.
Proof. unfold gmFunctions. apply add_function_spec. Qed.

Lemma define_spec table grant gm name :
  is_Some (foldl (define table) gm grant !! name) <->
  is_Some (gm !! name)
  \/ (name ∈ grant /\ (is_Some (table !! name) \/ inherited name = true)).
Proof.
  revert gm. induction grant as [|g grant IH]; intros gm; simpl.
  - rewrite elem_of_nil. tauto.
  - rewrite IH, elem_of_cons. unfold define.
    destruct (decide (name = g)) as [->|Hne].
    + destruct (table !! g) as [v|] eqn:E.
      * rewrite lookup_insert_eq. split; [intros _ | intros _; left]; eauto.
      * destruct (inherited g) eqn:Ei.
        -- rewrite lookup_insert_eq. split; [intros _ | intros _; left]; eauto.
        -- split; [intros [?|[_ [[x Hx]|?]]]; [auto | discriminate..] |].
           intros [?|[_ [[x Hx]|?]]]; [auto | discriminate..].
    + destruct (table !! g) as [v|] eqn:E.
      * rewrite lookup_insert_ne by congruence. tauto.
      * destruct (inherited g);
          [rewrite lookup_insert_ne by congruence |]; tauto.
Qed.


(** The loop over the grants, its two effects apart. *)
Lemma foldl_attach owner table grant : forall gm (h : heap),
  foldl (attach owner table) (gm, h) grant
  = (foldl (define table) gm grant, foldl (label owner table) h grant).
Proof.
  induction grant as [|g grant IH]; intros gm h; cbn [foldl]; [reflexivity |].
  unfold attach at 2. cbn [fst snd]. apply IH.
Qed.

(** Objects that are not functions made for [gmFunctions]. *)
Definition unlabelled (o : obj) : Prop :=
  match o with
  | CapabilityFn _ _ | ImportedFn _ _ => False
  | _ => True
  end.

Lemma relabel_unlabelled owner o : unlabelled o -> relabel owner o = o.
Proof. destruct o; cbn; intros Hu; first [reflexivity | contradiction]. Qed.

Lemma relabel_twice owner o :
  relabel owner (relabel owner o) = relabel owner o.
Proof. destruct o; reflexivity. Qed.

Lemma label_length owner table (h : heap) name :
  length (label owner table h name) = length h.
Proof.
  unfold label. destruct (table !! name) as [[| | | | |f|]|]; try reflexivity.
  apply length_alter.
Qed.

(** One step of the loop leaves an object as it is or relabels it, and it
    relabels the value of the entry it is called for. *)
Lemma label_lookup owner table (h : heap) name i :
  (label owner table h name !! i = h !! i /\ table !! name <> Some (VRef i))
  \/ (label owner table h name !! i = relabel owner <$> h !! i
      /\ table !! name = Some (VRef i)).
Proof.
  unfold label. destruct (table !! name) as [[| | | | |f|]|] eqn:E;
    try (left; split; [reflexivity | congruence]).
  destruct (decide (f = i)) as [->|Hne].
  - right. split; [apply list_lookup_alter_eq | reflexivity].
  - left. split; [apply list_lookup_alter_ne; exact Hne | congruence].
Qed.

Lemma foldl_label_length owner table grant : forall (h : heap),
  length (foldl (label owner table) h grant) = length h.
Proof.
  induction grant as [|g grant IH]; intros h; cbn [foldl]; [reflexivity |].
  rewrite IH. apply label_length.
Qed.

(** The whole loop: an object that is the value of the entry of a granted
    name is relabelled, every other object is as it was. *)
Lemma foldl_label_lookup owner table grant : forall (h : heap) i,
  (foldl (label owner table) h grant !! i = h !! i
   /\ forall name, name ∈ grant -> table !! name <> Some (VRef i))
  \/ (foldl (label owner table) h grant !! i = relabel owner <$> h !! i
      /\ exists name, name ∈ grant /\ table !! name = Some (VRef i)).
Proof.
  induction grant as [|g grant IH]; intros h i; cbn [foldl].
  - left. split; [reflexivity |]. intros name Hin.
    apply elem_of_nil in Hin. contradiction.
  - destruct (IH (label owner table h g) i) as [[E Hno] | [E (name & Hin & Hn)]];
      destruct (label_lookup owner table h g i) as [[E1 H1] | [E1 H1]];
      rewrite E, E1.
    + left. split; [reflexivity |]. intros name Hin.
      apply elem_of_cons in Hin as [-> | Hin]; [exact H1 | apply Hno, Hin].
    + right. split; [reflexivity |]. exists g. split; [left | exact H1].
    + right. split; [reflexivity |]. exists name. split; [right |]; assumption.
    + right. split.
      * destruct (h !! i) as [o|]; cbn; [| reflexivity].
        rewrite relabel_twice. reflexivity.
      * exists g. split; [left | exact H1].
Qed.

Lemma foldl_label_keeps owner table grant (h : heap) i x :
  h !! i = Some x -> unlabelled x ->
  foldl (label owner table) h grant !! i = Some x.
Proof.
  intros Hx Hu.
  destruct (foldl_label_lookup owner table grant h i) as [[E _] | [E _]];
    rewrite E, Hx; [reflexivity |].
  cbn. rewrite relabel_unlabelled by exact Hu. reflexivity.
Qed.

(** *** What [wrapGM] builds *)

Lemma push_missing_elem x g name :
  name ∈ push_missing x g <-> name ∈ g \/ name = x.
Proof.
  unfold push_missing, includes. case_bool_decide as Hx.
  - split; [auto | intros [? | ->]; assumption].
  - rewrite elem_of_app, list_elem_of_singleton. tauto.
Qed.

Lemma normalised_elem g name :
  name <> "none" ->
  name ∈ normalised g <-> name ∈ g ++ ["unsafeWindow"; "GM_info"].
Proof.
  intros Hn. unfold normalised.
  rewrite !push_missing_elem, elem_of_app, !elem_of_cons, elem_of_nil.
  assert (Hg : name ∈ (if no_grant g then removelast g else g) <-> name ∈ g).
  { destruct g as [|a [|b g]]; simpl; [tauto | | tauto].
    destruct (String.eqb_spec a "none") as [->|]; [| tauto].
    simpl. rewrite elem_of_nil, list_elem_of_singleton. tauto. }
  rewrite Hg. tauto.
Qed.

(** The pieces of a call of [wrapGM], named. *)
Lemma wrapGM_unfold sc code h :
  exists this h6 table,
    let g := default [] (grant (script_meta sc)) in
    let window := if no_grant g then unsafeWindow else this in
    wrapGM sc code h =
      (match grant (script_meta sc) with
       | Some _ => set_grant (normalised g) sc
       | None => sc
       end,
       Wrapped this (length h),
       <[length h :=
           Plain (foldl (define table)
                        (<["window" := Data (VRef window)]> ∅)
                        (normalised g))]> h6) /\
    (S (length h) <= length h6)%nat /\
    this = (if no_grant g then length h else S (length h)) /\
    (forall name, is_Some (table !! name) <-> name ∈ known_names).
Proof.
  unfold wrapGM. cbn [alloc].
  set (g := default [] (grant (script_meta sc))).
  fold (normalised g).
  set (h1 := h ++ [Plain ∅]).
  assert (Hh1 : length h1 = S (length h)).
  { subst h1. rewrite length_app. simpl. lia. }
  pose proof (getWrapper_fst h1) as Hwf.
  pose proof (getWrapper_length h1) as Hwl.
  destruct (getWrapper h1) as [w hw]. cbn [fst snd] in Hwf, Hwl.
  set (th := if no_grant g then (length h, h1) else (w, hw)).
  assert (Hth : fst th = (if no_grant g then length h else S (length h)) /\
                (S (length h) <= length (snd th))%nat).
  { subst th. destruct (no_grant g); cbn [fst snd]; split; lia. }
  destruct th as [this h2]. cbn [fst snd] in Hth. destruct Hth as [Hthis Hh2].
  set (window := if no_grant g then unsafeWindow else this).
  set (h3 := if includes (normalised g) "window.close" then _ else h2).
  assert (Hh3 : (S (length h) <= length h3)%nat).
  { subst h3. destruct (includes (normalised g) "window.close"); [| lia].
    rewrite set_prop_length, length_app. simpl. lia. }
  set (h4 := h3 ++ [InfoObj (gmInfo sc code)]).
  pose proof (gmFunctions_known (length h3) h4) as Hk.
  pose proof (gmFunctions_length (length h3) h4) as Hl.
  destruct (gmFunctions (length h3) h4) as [table h5].
  cbn [fst snd] in Hk, Hl.
  rewrite foldl_attach.
  exists this, (foldl (label (length h) table) h5 (normalised g)), table.
  cbn zeta. split; [reflexivity |].
  split; [| split; [exact Hthis | exact Hk]].
  rewrite foldl_label_length.
  subst h4. rewrite length_app in Hl. simpl in Hl. lia.
Qed.

Lemma reserved_not_known :
  ("window" ∉ known_names) /\ ("none" ∉ known_names).
Proof. split; apply (bool_decide_unpack _); vm_compute; exact I. Qed.

Lemma reserved_not_inherited :
  inherited "window" = false /\ inherited "none" = false.
Proof. split; vm_compute; reflexivity. Qed.

Lemma props_of_insert r (h : heap) ps :
  (r < length h)%nat -> props_of r (<[r := Plain ps]> h) = ps.
Proof.
  intros Hr. unfold props_of. rewrite list_lookup_insert_eq by exact Hr.
  reflexivity.
Qed.


(** The properties of the GM object built by [wrapGM] are [window] and,
    besides it, exactly the names of the effective grant set (the declared
    grants followed by [unsafeWindow] and [GM_info]) that are keys of
    [gmFunctions] or names of members of [Object.prototype].  So for a
    name that no object inherits, the GM object has the property exactly
    when the name is granted and has an implementation; a name outside
    the effective grant set is absent.  [wrapGM] is a total function of
    the grant list: a name for which [gmFunctions[name]] gives nothing is
    skipped. *)
Lemma gm_bindings_follow_grants (sc : script) (code : string) (h : heap)
    (name : string) :
  let effective :=
    default [] (grant (script_meta sc)) ++ ["unsafeWindow"; "GM_info"] in
  let '(_, r, h') := wrapGM sc code h in
  (is_Some (props_of (wrapper r) h' !! name) <->
     name = "window"
     \/ (name ∈ effective /\ (name ∈ known_names \/ inherited name = true))) /\
  (inherited name = false ->
     (is_Some (props_of (wrapper r) h' !! name) <->
        name = "window" \/ (name ∈ effective /\ name ∈ known_names))) /\
  (name ∈ known_names ->
     (is_Some (props_of (wrapper r) h' !! name) <-> name ∈ effective)) /\
  (name <> "window" -> name ∉ effective ->
     props_of (wrapper r) h' !! name = None) /\
  (name <> "window" -> name ∉ known_names -> inherited name = false ->
     props_of (wrapper r) h' !! name = None).
Proof.
  intros effective.
  destruct (wrapGM_unfold sc code h) as (this & h5 & table & E & Hl & Ht & Hk).
  cbn zeta in E. rewrite E. clear E. cbn [wrapper].
  rewrite props_of_insert by lia.
  destruct reserved_not_known as [Hwin Hnone].
  destruct reserved_not_inherited as [_ Hnone'].
  set (gm := foldl _ _ _).
  assert (Hmain : is_Some (gm !! name) <->
            name = "window"
            \/ (name ∈ effective
                /\ (name ∈ known_names \/ inherited name = true))).
  { subst gm. rewrite define_spec, Hk.
    assert (Hnn : name ∈ known_names \/ inherited name = true ->
                  name <> "none").
    { intros [Hkn | Hi] ->; [contradiction | congruence]. }
    destruct (decide (name = "window")) as [->|Hne].
    - rewrite lookup_insert_eq. split; [auto | intros _; left; eauto].
    - rewrite lookup_insert_ne by congruence. rewrite lookup_empty.
      split.
      + intros [[x Hx]|[Hin Hkn]]; [discriminate |]. right.
        split; [| exact Hkn]. apply normalised_elem in Hin; [exact Hin |].
        apply Hnn, Hkn.
      + intros [?|[Hin Hkn]]; [contradiction |]. right.
        split; [| exact Hkn]. apply normalised_elem; [| exact Hin].
        apply Hnn, Hkn. }
  split; [exact Hmain |]. split; [| split; [| split]].
  - intros Hi. rewrite Hmain, Hi. split.
    + intros [? | [? [? | ?]]]; [auto | auto | discriminate].
    + intros [? | [? ?]]; auto.
  - intros Hkn. rewrite Hmain. split.
    + intros [->|[? _]]; [contradiction | assumption].
    + auto.
  - intros Hne Hout. apply eq_None_not_Some. rewrite Hmain. tauto.
  - intros Hne Hout Hi. apply eq_None_not_Some. rewrite Hmain, Hi.
    intros [? | [_ [? | ?]]]; [contradiction | contradiction | discriminate].
Qed.

(** *** The protected view *)


Lemma props_of_app_old r (h : heap) o x :
  h !! r = Some x -> props_of r (h ++ [o]) = props_of r h.
Proof.
  intros Hr. unfold props_of. rewrite (lookup_app_l_Some _ _ _ _ Hr), Hr.
  reflexivity.
Qed.

(** The view holds an accessor for [name] and the real object is there. *)
Definition accessor_at (view : nat) (name : string) (p : prop) (h : heap)
  : Prop :=
  view <> unsafeWindow /\
  (exists ps, h !! view = Some (Plain ps) /\ ps !! name = Some p) /\
  (exists gps, h !! unsafeWindow = Some (Plain gps)).



Lemma accessor_at_view_insert view name p p' ps (h : heap) :
  accessor_at view name p h ->
  h !! view = Some (Plain ps) ->
  accessor_at view name p' (<[view := Plain (<[name := p']> ps)]> h).
Proof.
  intros (Hne & _ & gps & Hg) Hv. split; [exact Hne |]. split.
  - eexists. split; [| apply lookup_insert_eq].
    apply list_lookup_insert_eq. eapply lookup_lt_Some; exact Hv.
  - exists gps. rewrite list_lookup_insert_ne by congruence. exact Hg.
Qed.

Lemma accessor_at_global_set view name p v (h : heap) :
  accessor_at view name p h ->
  accessor_at view name p (global_set name v h).
Proof.
  intros (Hne & (ps & Hv & Hp) & gps & Hg). unfold global_set.
  split; [exact Hne |]. split.
  - exists ps. rewrite list_lookup_insert_ne by congruence. auto.
  - eexists. apply list_lookup_insert_eq. eapply lookup_lt_Some; exact Hg.
Qed.




Lemma wrap_property_keep w name n :
  is_Some (w !! name) -> wrap_property w n !! name = w !! name.
Proof.
  intros Hs. unfold wrap_property.
  destruct (decide (is_Some (w !! n))) as [|Hn]; [reflexivity |].
  assert (n <> name) by (intros ->; contradiction).
  destruct (inherited n); [reflexivity |].
  destruct (String.eqb _ _); apply lookup_insert_ne; assumption.
Qed.

Lemma foldl_wrap_property_keep names w name :
  is_Some (w !! name) -> foldl wrap_property w names !! name = w !! name.
Proof.
  revert w. induction names as [|n names IH]; intros w Hs; simpl.
  - reflexivity.
  - rewrite IH; rewrite wrap_property_keep by exact Hs; auto.
Qed.

Lemma wrap_property_other w name n :
  n <> name -> wrap_property w n !! name = w !! name.
Proof.
  intros Hne. unfold wrap_property.
  destruct (decide (is_Some (w !! n))); [reflexivity |].
  destruct (inherited n); [reflexivity |].
  destruct (String.eqb _ _); apply lookup_insert_ne; assumption.
Qed.



Lemma foldl_bind_method_spec names : forall w (h : heap),
  let r := foldl bind_method (w, h) names in
  (forall name, name ∉ names -> fst r !! name = w !! name) /\
  (forall i x, h !! i = Some x -> snd r !! i = Some x).
Proof.
  induction names as [|n names IH]; intros w h; simpl; [auto |].
  unfold bind_method at 2.
  destruct (truthy (global_get n h)); cbn [alloc].
  - destruct (IH (<[n := Data (VRef (length h))]> w) (h ++ [BoundFn (global_get n h)]))
      as [Hk Hx].
    split.
    + intros name Hn. apply not_elem_of_cons in Hn as [Hne Hn].
      rewrite Hk by exact Hn. apply lookup_insert_ne. congruence.
    + intros i x Hi. apply Hx, lookup_app_l_Some, Hi.
  - destruct (IH w h) as [Hk Hx]. split.
    + intros name Hn. apply not_elem_of_cons in Hn as [Hne Hn]. auto.
    + exact Hx.
Qed.



(** [C9] as amended: [wrapGM] returns the descriptor with every field
    but [meta.grant] as it was; an absent [meta.grant] stays absent, and a
    present one is rewritten in place: a list that is exactly [["none"]]
    loses that entry, and [unsafeWindow] and [GM_info] are appended when
    they are not already in the list. *)
Theorem wrapGM_descriptor (sc : script) (code : string) (h : heap) :
  let sc' := fst (fst (wrapGM sc code h)) in
  let m := script_meta sc in
  let m' := script_meta sc' in
  props_id sc' = props_id sc /\
  props_uuid sc' = props_uuid sc /\
  script_custom sc' = script_custom sc /\
  config_shouldUpdate sc' = config_shouldUpdate sc /\
  require m' = require m /\
  resources m' = resources m /\
  exclude m' = exclude m /\
  include m' = include m /\
  match_ m' = match_ m /\
  name m' = name m /\
  namespace m' = namespace m /\
  description m' = description m /\
  version m' = version m /\
  runAt m' = runAt m /\
  run_at m' = run_at m /\
  grant m' = normalised <$> grant m.
Proof.
  destruct (wrapGM_unfold sc code h) as (this & h5 & table & E & _).
  cbn zeta in E. rewrite E. clear E. cbn [fst].
  destruct sc as [id uuid [g rq rs ex inc ma nm ns de ve ra ra'] cu cfg].
  destruct g as [g|]; cbn; repeat split; reflexivity.
Qed.

End SandboxFacts.

(** A page whose global object is the first object of the heap, followed
    by the two imported functions. *)
Definition demo_page : Page :=
  {| unsafeWindow := 0;
     bridge_props := ["name"; "onload"; "self"; "eval"];
     bridge_version := "2.9.5";
     meta_block := fun _ => EmptyString;
     onRequestCreate := 1;
     onDownload := 2 |}.

Definition demo_heap : list Sandbox.obj :=
  [Sandbox.Plain
     (<["name" := Sandbox.Data (VStr "first")]>
        (<["self" := Sandbox.Data (VRef 0)]>
           (<["onload" := Sandbox.Data VNull]> ∅)));
   Sandbox.ImportedFn "onRequestCreate" None;
   Sandbox.ImportedFn "onDownload" None].

Definition demo_script (grant : option (list string)) : Sandbox.script :=
  Sandbox.Script 1 "uuid-1"
    (Sandbox.Meta grant None None [] [] [] (Some "demo") None None None None
                  None)
    (Sandbox.Custom None None None None) false.




(** [C9] A descriptor that declares [@grant none] comes back from [wrapGM]
    with a different [meta.grant]. *)
Lemma descriptor_changed_by_wrapGM :
  let sc := demo_script (Some ["none"]) in
  let sc' := fst (fst (@Sandbox.wrapGM demo_page sc EmptyString demo_heap)) in
  Sandbox.grant (Sandbox.script_meta sc') = Some ["unsafeWindow"; "GM_info"] /\
  sc' <> sc.
Proof.
  split; [vm_compute; reflexivity |].
  intros E. apply (f_equal (fun s => Sandbox.grant (Sandbox.script_meta s))) in E.
  vm_compute in E. discriminate E.
Qed.

(** [C2] The code at the failing input: a script that declares
    [@grant constructor].  [constructor] is not a key of [gmFunctions], so
    it has no implementation, yet [gmFunctions['constructor']] finds the
    member of [Object.prototype] of that name, which is truthy, and
    [addProperty] defines [constructor] on the GM object: the GM object
    holds a property, fixed at [undefined], for a granted name without an
    implementation. *)
Theorem granted_prototype_name_is_bound :
  let sc := demo_script (Some ["constructor"]) in
  let built := @Sandbox.wrapGM demo_page sc EmptyString demo_heap in
  let gm := Sandbox.wrapper (snd (fst built)) in
  ("constructor" ∉ @Sandbox.known_names) /\
  "constructor" ∈ default [] (Sandbox.grant (Sandbox.script_meta sc))
                  ++ ["unsafeWindow"; "GM_info"] /\
  Sandbox.props_of gm (snd built) !! "constructor"
  = Some (Sandbox.Fixed VUndefined).
Proof.
  intros sc built gm. split; [| split].
  - apply (bool_decide_unpack _). vm_compute. exact I.
  - apply (bool_decide_unpack _). vm_compute. exact I.
  - vm_compute. reflexivity.
Qed.

(** ** Execution scheduler *)

Section SchedulerFacts.
Import Sandbox Scheduler.
Context `{Host}.

(** What [buildCode] and [run] leave alone. *)
Definition same_control (s s' : sched) : Prop :=
  state s' = state s /\ timers s' = timers s /\ load s' = load s /\
  length (envs s') = length (envs s) /\
  console s' = console s /\ executed s' = executed s.

Lemma same_control_refl s : same_control s s.
Proof. repeat split. Qed.

Lemma same_control_trans s1 s2 s3 :
  same_control s1 s2 -> same_control s2 s3 -> same_control s1 s3.
Proof.
  intros (A1 & A2 & A3 & A4 & A5 & A6) (B1 & B2 & B3 & B4 & B5 & B6).
  repeat split; congruence.
Qed.

Lemma put_list_same p (l : lists) :
  get_list p l = [] -> put_list p [] l = l.
Proof. destruct l, p; simpl; intros ->; reflexivity. Qed.

Lemma put_list_twice p x y (l : lists) :
  put_list p x (put_list p y l) = put_list p x l.
Proof. destruct l, p; reflexivity. Qed.

Lemma lists_at_alter f env (s : sched) :
  (env < length (envs s))%nat ->
  lists_at env (set_envs (alter f env) s) = f (lists_at env s).
Proof.
  intros Hlt. unfold lists_at. cbn [set_envs envs].
  rewrite list_lookup_alter_eq.
  destruct (lookup_lt_is_Some_2 (envs s) env Hlt) as [l ->]. reflexivity.
Qed.

Lemma run_from_spec l : forall env p s,
  (env < length (envs s))%nat ->
  get_list p (lists_at env s) = l ->
  let s' := run_from l env p s in
  injected s' = injected s ++ map props_id l /\
  lists_at env s' = put_list p [] (lists_at env s) /\
  same_control s s'.
Proof.
  induction l as [|sc rest IH]; intros env p s Hlt Hl; cbn [run_from].
  - rewrite app_nil_r, put_list_same by exact Hl.
    split; [reflexivity |]. split; [reflexivity | apply same_control_refl].
  - set (s1 := buildCode sc (set_envs (alter (put_list p rest) env) s)).
    assert (Hlen : length (envs s1) = length (envs s)).
    { subst s1. cbn. apply length_alter. }
    assert (Hat : lists_at env s1 = put_list p rest (lists_at env s)).
    { subst s1. unfold buildCode, lists_at. cbn [envs set_envs].
      rewrite list_lookup_alter_eq.
      destruct (lookup_lt_is_Some_2 (envs s) env Hlt) as [l0 ->].
      reflexivity. }
    destruct (IH env p s1) as (Hi & Ha & Hc).
    { rewrite Hlen. exact Hlt. }
    { rewrite Hat. destruct (lists_at env s), p; reflexivity. }
    split; [| split].
    + rewrite Hi. subst s1. unfold injected, buildCode. cbn [posted set_envs].
      rewrite map_app. cbn [map]. rewrite <- app_assoc. reflexivity.
    + rewrite Ha, Hat. apply put_list_twice.
    + eapply same_control_trans; [| exact Hc].
      subst s1. repeat split. cbn. apply length_alter.
Qed.

Lemma run_spec env p s :
  (env < length (envs s))%nat ->
  let s' := run env p s in
  injected s' = injected s ++ map props_id (get_list p (lists_at env s)) /\
  lists_at env s' = put_list p [] (lists_at env s) /\
  same_control s s'.
Proof.
  intros Hlt. unfold run.
  assert (E : default [] (get_list p <$> envs s !! env)
              = get_list p (lists_at env s)).
  { unfold lists_at. destruct (envs s !! env); [reflexivity |].
    destruct p; reflexivity. }
  rewrite E. apply run_from_spec; [exact Hlt | reflexivity].
Qed.

(** The loop over [data.scripts] when no run-at value is the name of a
    member of [Object.prototype]: every script goes to its array. *)
Definition enlist_listed (vals : gmap Z (gmap string Values.raw)) (env : nat)
    (s : sched) (sc : script) : sched :=
  push_script vals env (default End_ (list_for sc)) s sc.

Lemma forEach_enlist_listed vals env scripts : forall s,
  all_listed scripts ->
  forEach_enlist vals env scripts s
  = Returned (foldl (enlist_listed vals env) s scripts).
Proof.
  induction scripts as [|sc scripts IH]; intros s Hall; cbn [forEach_enlist foldl].
  - reflexivity.
  - apply Forall_cons in Hall as [[p Hp] Hall].
    unfold enlist at 1, enlist_listed at 2. rewrite Hp. cbn [default].
    apply IH, Hall.
Qed.

Lemma enlist_spec vals scripts : forall env s,
  all_listed scripts ->
  (env < length (envs s))%nat ->
  let s' := foldl (enlist_listed vals env) s scripts in
  lists_at env s' =
    Lists (start (lists_at env s) ++ of_phase Start scripts)
          (idle (lists_at env s) ++ of_phase Idle scripts)
          (end_ (lists_at env s) ++ of_phase End_ scripts) /\
  injected s' = injected s /\
  same_control s s'.
Proof.
  induction scripts as [|sc scripts IH]; intros env s Hall Hlt; cbn [foldl].
  - unfold of_phase. rewrite !filter_nil, !app_nil_r.
    split; [destruct (lists_at env s); reflexivity |].
    split; [reflexivity | apply same_control_refl].
  - apply Forall_cons in Hall as [[p Hp] Hall].
    set (s1 := enlist_listed vals env s sc).
    assert (Hlen : length (envs s1) = length (envs s)).
    { subst s1. cbn. apply length_alter. }
    assert (Hat : lists_at env s1 =
                  put_list p (get_list p (lists_at env s) ++ [sc])
                    (lists_at env s)).
    { subst s1. unfold enlist_listed, push_script, lists_at.
      rewrite Hp. cbn [envs set_envs default].
      rewrite list_lookup_alter_eq.
      destruct (lookup_lt_is_Some_2 (envs s) env Hlt) as [l0 ->].
      reflexivity. }
    destruct (IH env s1 Hall) as (Ha & Hi & Hc); [rewrite Hlen; exact Hlt |].
    split; [| split].
    + rewrite Ha, Hat. unfold of_phase. rewrite !filter_cons.
      destruct (lists_at env s) as [st id en]. rewrite Hp.
      destruct p; cbn;
        repeat (destruct (decide _); try congruence);
        rewrite <- ?app_assoc; reflexivity.
    + rewrite Hi. reflexivity.
    + eapply same_control_trans; [| exact Hc].
      subst s1. repeat split. cbn. apply length_alter.
Qed.

(** The state in which the loop over the scripts of the first
    [LoadScripts] message starts. *)
Definition loading (st : bool) (v : string) : sched :=
  Sched st [Lists [] [] []] (Some 0%nat) [] (Some v) ∅ 0%nat ∅ [] [] [] true.

(** The state after the scripts of a [LoadScripts] message have been
    sorted into the arrays and the start array has been run. *)
Lemma after_start_any (st : bool) v vals scripts :
  all_listed scripts ->
  let s0 := loading st v in
  let s1 := run 0 Start (foldl (enlist_listed vals 0) s0 scripts) in
  injected s1 = map props_id (of_phase Start scripts) /\
  lists_at 0 s1 = Lists [] (of_phase Idle scripts) (of_phase End_ scripts) /\
  same_control s0 s1.
Proof.
  intros Hall s0 s1.
  destruct (enlist_spec vals scripts 0 s0 Hall) as (Ha & Hi & Hc);
    [cbn; lia |].
  set (s' := foldl (enlist_listed vals 0) s0 scripts) in *.
  assert (Hlt : (0 < length (envs s'))%nat).
  { destruct Hc as (_ & _ & _ & -> & _). cbn. lia. }
  destruct (run_spec 0 Start s' Hlt) as (Ri & Ra & Rc). fold s1 in Ri, Ra, Rc.
  split; [| split].
  - rewrite Ri, Hi, Ha. reflexivity.
  - rewrite Ra, Ha. reflexivity.
  - eapply same_control_trans; eassumption.
Qed.

(** [bridge.load] and the timer it sets, on arrays whose start part has
    been run. *)
Lemma load_then_timer s ids_before idles ends :
  (0 < length (envs s))%nat ->
  injected s = ids_before ->
  lists_at 0 s = Lists [] idles ends ->
  timers s = [] ->
  let s1 := bridge_load 0 s in
  let s2 := onTimer s1 in
  injected s1 = ids_before ++ map props_id ends /\
  timers s1 = [0%nat] /\
  lists_at 0 s1 = Lists [] idles [] /\
  injected s2 = ids_before ++ map props_id ends ++ map props_id idles /\
  timers s2 = [] /\
  lists_at 0 s2 = Lists [] [] [] /\
  state s2 = state s /\ load s2 = load s /\
  length (envs s2) = length (envs s).
Proof.
  intros Hlt Hinj Hat Ht s1 s2.
  destruct (run_spec 0 End_ s Hlt) as (Ri & Ra & Rc).
  destruct Rc as (R1 & R2 & R3 & R4 & R5 & R6).
  set (r := run 0 End_ s) in *.
  assert (E1 : s1 = set_timers [0%nat] r).
  { subst s1. unfold bridge_load. fold r. rewrite R2, Ht. reflexivity. }
  assert (E2 : s2 = run 0 Idle (set_timers [] s1)).
  { subst s2. unfold onTimer. rewrite E1. reflexivity. }
  set (q := set_timers [] s1) in *.
  assert (Hq : lists_at 0 q = Lists [] idles [] /\
               injected q = ids_before ++ map props_id ends /\
               length (envs q) = length (envs s) /\
               state q = state s /\ load q = load s).
  { subst q. rewrite E1. unfold lists_at, injected. cbn.
    fold (lists_at 0 r). fold (injected r).
    rewrite Ra, Ri, Hat, Hinj. cbn. auto. }
  destruct Hq as (Q1 & Q2 & Q3 & Q4 & Q5).
  destruct (run_spec 0 Idle q) as (Si & Sa & Sc); [rewrite Q3; exact Hlt |].
  destruct Sc as (S1 & S2 & S3 & S4 & S5 & S6).
  rewrite <- E2 in *.
  split_and!.
  - rewrite E1. unfold injected. cbn. fold (injected r).
    rewrite Ri, Hinj, Hat. reflexivity.
  - rewrite E1. reflexivity.
  - rewrite E1. unfold lists_at. cbn. fold (lists_at 0 r).
    rewrite Ra, Hat. reflexivity.
  - rewrite Si, Q2, Q1, <- app_assoc. reflexivity.
  - rewrite S2. reflexivity.
  - rewrite Sa, Q1. reflexivity.
  - congruence.
  - congruence.
  - congruence.
Qed.

Lemma onLoadScripts_init v vals scripts ready :
  all_listed scripts ->
  let s1 := run 0 Start (foldl (enlist_listed vals 0) (loading false v) scripts) in
  onLoadScripts_outcome v (Some scripts) vals ready init =
    Returned (if ready then bridge_load 0 (set_state true s1) else s1) /\
  onDOMContentLoaded s1 = bridge_load 0 (set_state true s1).
Proof.
  intros Hall s1.
  destruct (after_start_any false v vals scripts Hall) as (_ & _ & Hc).
  cbv zeta in Hc. fold s1 in Hc.
  destruct Hc as (Hst & _ & Hld & _). cbn in Hst, Hld.
  split.
  - unfold onLoadScripts_outcome.
    cbn [init set_version exposed envs length app state load timers
      version values draws attached posted console executed].
    rewrite forEach_enlist_listed by exact Hall.
    fold (loading false v). fold s1. rewrite Hst.
    destruct ready; cbn [negb andb].
    + reflexivity.
    + rewrite Hst. reflexivity.
  - unfold onDOMContentLoaded. cbn [set_state load]. rewrite Hld.
    reflexivity.
Qed.

(** Any list of scripts none of which has the name of a member of
    [Object.prototype] as its run-at value, loaded into a fresh page:
    [run(start)] at once; [run(end)] as soon as the document is ready, in
    the same turn as what precedes it; [run(idle)] in the turn of the
    timer.  Each array is handed off in the order of the list and is empty
    afterwards, so a later [bridge.load] hands nothing off again. *)
Lemma phase_order_general v vals scripts :
  all_listed scripts ->
  let ids p := map props_id (of_phase p scripts) in
  let ready := onLoadScripts v (Some scripts) vals true init in
  let early := onLoadScripts v (Some scripts) vals false init in
  injected ready = ids Start ++ ids End_ /\
  timers ready = [0%nat] /\
  injected (onTimer ready) = ids Start ++ ids End_ ++ ids Idle /\
  lists_at 0 (onTimer ready) = Lists [] [] [] /\
  timers (onTimer ready) = [] /\
  injected (onDOMContentLoaded (onTimer ready)) = injected (onTimer ready) /\
  injected early = ids Start /\
  timers early = [] /\
  onDOMContentLoaded early = ready /\
  lists_at 0 ready = Lists [] (of_phase Idle scripts) [] /\
  lists_at 0 early
  = Lists [] (of_phase Idle scripts) (of_phase End_ scripts).
Proof.
  intros Hall ids ready early.
  destruct (onLoadScripts_init v vals scripts true Hall) as [Er Ed].
  destruct (onLoadScripts_init v vals scripts false Hall) as [Ee _].
  destruct (after_start_any false v vals scripts Hall) as (Hi & Ha & Hc).
  cbn zeta in *.
  set (s1 := run 0 Start _) in *.
  destruct Hc as (C1 & C2 & C3 & C4 & C5 & C6). cbn in C1, C2, C3, C4.
  assert (Er' : ready = bridge_load 0 (set_state true s1))
    by (subst ready; unfold onLoadScripts; rewrite Er; reflexivity).
  assert (Ee' : early = s1)
    by (subst early; unfold onLoadScripts; rewrite Ee; reflexivity).
  clear Er Ee.
  destruct (load_then_timer (set_state true s1) (ids Start)
              (of_phase Idle scripts) (of_phase End_ scripts))
    as (L1 & L2 & L3 & L4 & L5 & L6 & L7 & L8 & L9).
  { cbn. rewrite C4. lia. }
  { exact Hi. }
  { exact Ha. }
  { exact C2. }
  rewrite <- Er' in *.
  split_and!; try assumption.
  - set (s2 := onTimer ready) in *.
    unfold onDOMContentLoaded. cbn [set_state load]. rewrite L8.
    cbn [set_state load]. rewrite C3.
    unfold bridge_load.
    destruct (run_spec 0 End_ (set_state true s2)) as (Ri & _).
    { cbn. rewrite L9. cbn. rewrite C4. lia. }
    unfold injected at 1. cbn [set_timers posted]. fold (injected (run 0 End_ (set_state true s2))).
    rewrite Ri. unfold lists_at at 1. cbn [set_state envs].
    fold (lists_at 0 s2). rewrite L6. cbn. apply app_nil_r.
  - rewrite Ee'. exact Hi.
  - rewrite Ee'. exact C2.
  - rewrite Ee'. exact Ed.
  - rewrite Ee'. exact Ha.
Qed.

(** *** [runCode] *)

Lemma string_append_assoc (a b c : string) :
  (a +:+ b) +:+ c = a +:+ (b +:+ c).
Proof.
  induction a as [|x a IH]; [reflexivity |].
  change (String x ((a +:+ b) +:+ c) = String x (a +:+ (b +:+ c))).
  f_equal. exact IH.
Qed.

(** What a turn of an attached function may change. *)
Definition same_schedule (s s' : sched) : Prop :=
  state s' = state s /\ envs s' = envs s /\ load s' = load s /\
  timers s' = timers s /\ attached s' = attached s /\ posted s' = posted s.

Lemma runCode_returns name s :
  let o := runCode name None s in
  threw o = false /\ errors (state_of o) = errors s /\
  executed (state_of o) = executed s ++ [name] /\
  same_schedule s (state_of o).
Proof.
  unfold runCode, errors. destruct DEBUG; cbn.
  - rewrite omap_app. cbn. rewrite app_nil_r. repeat split.
  - repeat split.
Qed.

(** A body that throws a value other than [null] and [undefined]: the
    exception stops in [runCode], which reports once, with the name. *)
Lemma runCode_reports name text message s :
  let o := runCode name (Some (ThrownValue text message)) s in
  threw o = false /\
  (exists rest,
     errors (state_of o)
     = errors s ++ ["Error running script: " +:+ name +:+ rest]) /\
  executed (state_of o) = executed s ++ [name] /\
  same_schedule s (state_of o).
Proof.
  unfold runCode, errors.
  destruct DEBUG, message as [m|]; cbn; rewrite !omap_app; cbn;
    rewrite ?app_nil_r; (split; [reflexivity |]);
    (split; [| repeat split]).
  - exists (newline +:+ text +:+ newline +:+ m).
    rewrite !string_append_assoc. reflexivity.
  - exists (newline +:+ text). reflexivity.
  - exists (newline +:+ text +:+ newline +:+ m).
    rewrite !string_append_assoc. reflexivity.
  - exists (newline +:+ text). reflexivity.
Qed.

(** After such a failure the scripts that are still to run do run: the
    arrays, the timers and the attached functions are as they were, and
    the next attached function that is called applies its body. *)
Lemma failure_does_not_stop_the_queue fnId id name text message s
    fnId' id' name' body' :
  attached s !! fnId = Some (id, name) ->
  attached s !! fnId' = Some (id', name') ->
  let o := onInjected fnId true (Some (ThrownValue text message)) s in
  let o' := onInjected fnId' true body' (state_of o) in
  threw o = false /\
  (exists rest,
     errors (state_of o)
     = errors s ++ ["Error running script: " +:+ name +:+ rest]) /\
  same_schedule s (state_of o) /\
  executed (state_of o') = executed s ++ [name; name'].
Proof.
  intros Hf Hf'. unfold onInjected. rewrite Hf.
  destruct (runCode_reports name text message s) as (Ht & He & Hx & Hs).
  set (s1 := state_of (runCode name _ s)) in *.
  split; [exact Ht |]. split; [exact He |]. split; [exact Hs |].
  destruct Hs as (_ & _ & _ & _ & Ha & _). rewrite Ha, Hf'.
  assert (Hex : forall b, executed (state_of (runCode name' b s1))
                          = executed s1 ++ [name']).
  { intros b. unfold runCode.
    destruct DEBUG, b as [[| |t [m|]]|]; reflexivity. }
  rewrite Hex, Hx, <- app_assoc. reflexivity.
Qed.

(** *** What is handed to the host, and what the host runs *)









Section Distinct.
Hypothesis uniq_suffix_inj : forall m n, uniq_suffix m = uniq_suffix n -> m = n.




End Distinct.




Section Order.
Hypothesis uniq_suffix_inj : forall m n, uniq_suffix m = uniq_suffix n -> m = n.


End Order.

End SchedulerFacts.

Definition script_at (id : Z) (runAt : string) : Sandbox.script :=
  Sandbox.Script id "uuid"
    (Sandbox.Meta None None None [] [] [] None None None None (Some runAt) None)
    (Sandbox.Custom None None None None) false.



(** [C4] The code at the failing input: a script named [demo] whose body
    throws [null].  The handler of [runCode] throws in turn, the exception
    leaves [runCode] and no error report is made. *)
Theorem null_throw_is_not_reported :
  let A := Sandbox.Script 1 "uuid"
             (Sandbox.Meta None None None [] [] [] (Some "demo") None None None
                           (Some "document-start") None)
             (Sandbox.Custom None None None None) false in
  let s := @Scheduler.onLoadScripts throwing_host "2.9.5" (Some [A]) ∅ true
                                    Scheduler.init in
  let o := @Scheduler.onInjected throwing_host "VMfnk1" true
             (Some Scheduler.ThrownNullish) s in
  Scheduler.attached s !! "VMfnk1" = Some ("VMink0", "demo") /\
  Scheduler.executed (state_of o) = ["demo"] /\
  threw o = true /\
  Scheduler.errors (state_of o) = [].
Proof.
  vm_compute. auto.
Qed.

(** * Further properties *)

(** ** Requests and their replies *)

Section RegistryReplies.
Import Registry.
Context `{Host}.

Lemma calls_of_record f g arg s :
  calls_of f (record (Called g arg) s)
  = (calls_of f s + if decide (g = f) then 1 else 0)%nat.
Proof.
  unfold calls_of, record. cbn [trace].
  rewrite fmap_app, filter_app, length_app. cbn [fmap list_fmap called_fn].
  rewrite filter_cons, filter_nil. destruct (decide (g = f)); reflexivity.
Qed.

Lemma call_user_calls f g arg s :
  calls_of f (state_of (call_user g arg s))
  = (calls_of f s + if decide (g = f) then 1 else 0)%nat.
Proof.
  unfold call_user. destruct (user_throws g arg); apply calls_of_record.
Qed.

(** [X1] A command posted with a function as callback carries the id under
    which the function is registered; the response with that id calls the
    function once with the result and removes the entry first, so a second
    response with the same id does nothing, also when the function threw. *)
Theorem command_response_once (cmd : string) (f : nat) (result : val)
    (s : store) :
  0 <= lastCallbackId s ->
  let s1 := postCommandWithCallback cmd (Some (UserFn f)) s in
  let requestId := lastCallbackId s + 1 in
  let o := handlers_CommandResponse result (KNum requestId) s1 in
  posted s1 = posted s ++ [PostCommand cmd requestId] /\
  callbacks s1 !! KNum requestId = Some (UserFn f) /\
  trace (state_of o) = trace s ++ [Called f result] /\
  callbacks (state_of o) !! KNum requestId = None /\
  forall result',
    handlers_CommandResponse result' (KNum requestId) (state_of o)
    = Returned (state_of o).
Proof.
  intros H0. cbn zeta.
  unfold postCommandWithCallback, addCallback, post. cbn [posted callbacks].
  split; [reflexivity |].
  split; [apply lookup_insert_eq |].
  unfold handlers_CommandResponse, handleCallback.
  assert (Ht : key_truthy (KNum (lastCallbackId s + 1)) = true).
  { cbn. destruct (Z.eqb_spec (lastCallbackId s + 1) 0); [lia | reflexivity]. }
  rewrite Ht. cbn [callbacks]. rewrite lookup_insert_eq.
  cbn [invoke]. unfold call_user, set_callbacks, record.
  cbn [callbacks lastCallbackId cells draws posted trace].
  destruct (user_throws f result); cbn [state_of trace callbacks];
    (split; [reflexivity |]);
    (split; [apply lookup_delete_eq |]);
    intros result'; rewrite ?Ht; cbn [callbacks];
    rewrite lookup_delete_eq; reflexivity.
Qed.

(** [X2] A command posted with something that is not a function carries the
    id -1 and registers nothing; in every state reached from the initial
    store a response for -1 is dropped. *)
Theorem command_without_callback (ts : list turn) (cmd : string)
    (result : val) :
  let s := run_turns ts init in
  let s1 := postCommandWithCallback cmd None s in
  posted s1 = posted s ++ [PostCommand cmd (-1)] /\
  callbacks s1 = callbacks s /\
  lastCallbackId s1 = lastCallbackId s /\
  handlers_CommandResponse result (KNum (-1)) s1 = Returned s1.
Proof.
  cbn zeta. set (s := run_turns ts init).
  pose proof (run_turns_inv ts init numbered_inv_init) as [H0 Hk]. fold s in H0, Hk.
  unfold postCommandWithCallback, addCallback, post.
  cbn [posted callbacks lastCallbackId].
  split_and!; try reflexivity.
  unfold handlers_CommandResponse, handleCallback. cbn [key_truthy KNum].
  cbn [callbacks].
  destruct (callbacks s !! KNum (-1)) as [c|] eqn:E; [| reflexivity].
  specialize (Hk (-1) c E). lia.
Qed.

(** [X3] A [Callback] message whose id is the number of a pending request calls
    the registered function and leaves it registered: this handler never
    removes an entry of [addCallback]. *)
Theorem callback_message_keeps_request (n : Z) (f : nat) (payload : val)
    (s : store) :
  callbacks s !! KNum n = Some (UserFn f) ->
  let o := handlers_Callback (KNum n) payload s in
  trace (state_of o) = trace s ++ [Called f payload] /\
  callbacks (state_of o) = callbacks s.
Proof.
  intros Hn. cbn zeta. unfold handlers_Callback. rewrite Hn. cbn [invoke].
  unfold call_user. destruct (user_throws f payload); split; reflexivity.
Qed.

(** [X4] [GM_addStyle] from any store: once the host has answered, the one-shot
    entry is gone, the element is the one [getElementById] finds for the
    style id, and [then] calls its argument at once with that element. *)
Theorem addStyle_then_after_reply (css : string) (f : nat) (styleId : val)
    (s : store) :
  let '(cell, s1) := GM_addStyle css s in
  let callbackId := "VMcb" +:+ uniq_suffix (draws s) in
  let s2 := state_of (handlers_Callback (KStr callbackId) styleId s1) in
  let o := style_then cell f s2 in
  posted s1 = posted s ++ [AddStyle css callbackId] /\
  callbacks s1 !! KStr callbackId
    = Some (OneShot callbackId (StyleResolver cell)) /\
  callbacks s2 !! KStr callbackId = None /\
  trace s2 = trace s /\
  trace (state_of o) = trace s ++ [Called f (getElementById styleId)].
Proof.
  unfold GM_addStyle, registerCallback, getUniqId, set_cells, set_callbacks,
    post. cbn [cells callbacks lastCallbackId draws posted trace fst snd].
  set (id := "VMcb" +:+ uniq_suffix (draws s)).
  split; [reflexivity |]. split; [apply lookup_insert_eq |].
  unfold handlers_Callback. cbn [callbacks]. rewrite lookup_insert_eq.
  cbn [invoke cells]. rewrite list_lookup_middle by reflexivity.
  cbn [splice_noargs cell_callbacks forEach_call set_cells set_callbacks
       state_of callbacks cells trace lastCallbackId draws posted].
  split; [apply lookup_delete_eq |]. split; [reflexivity |].
  unfold style_then, set_callbacks, set_cells. cbn [cells].
  rewrite list_lookup_insert_eq
    by (rewrite length_app; cbn; lia).
  cbn [el]. unfold call_user, record. cbn [trace].
  destruct (user_throws f (getElementById styleId)); reflexivity.
Qed.

End RegistryReplies.

Lemma command_response_once_witness :
  let s := Registry.init in
  let s1 := Registry.postCommandWithCallback "GetLocale"
              (Some (Registry.UserFn 0)) s in
  let o := @Registry.handlers_CommandResponse throwing_host (VStr "en")
             (Registry.KNum 1) s1 in
  Registry.posted s1 = [] ++ [Registry.PostCommand "GetLocale" 1] /\
  Registry.callbacks s1 !! Registry.KNum 1 = Some (Registry.UserFn 0) /\
  Registry.trace (state_of o) = [] ++ [Registry.Called 0 (VStr "en")] /\
  Registry.callbacks (state_of o) !! Registry.KNum 1 = None /\
  forall result',
    @Registry.handlers_CommandResponse throwing_host result' (Registry.KNum 1)
      (state_of o)
    = Returned (state_of o).
Proof.
  apply (@command_response_once throwing_host "GetLocale" 0 (VStr "en")
           Registry.init).
  simpl. lia.
Defined.

Lemma callback_message_keeps_request_witness :
  let s := snd (Registry.addCallback (Some (Registry.UserFn 1)) Registry.init) in
  let o := @Registry.handlers_Callback throwing_host (Registry.KNum 1) VNull s in
  Registry.trace (state_of o) = Registry.trace s ++ [Registry.Called 1 VNull] /\
  Registry.callbacks (state_of o) = Registry.callbacks s.
Proof.
  apply (@callback_message_keeps_request throwing_host 1 1%nat VNull
           (snd (Registry.addCallback (Some (Registry.UserFn 1)) Registry.init))).
  reflexivity.
Defined.

(** ** More on the value store cache *)

Section ValuesMore.
Import Values.
Context `{Codec}.

Lemma listValues_elem id key s value :
  values s !! id = Some value ->
  exists l, GM_listValues id s = Some l /\ (key ∈ l <-> is_Some (value !! key)).
Proof.
  intros Hv. unfold GM_listValues, loadValues. rewrite Hv. cbn.
  eexists. split; [reflexivity |].
  change (map fst (map_to_list value)) with ((map_to_list value).*1).
  rewrite list_elem_of_fmap. split.
  - intros ([k r] & -> & Hin). apply elem_of_map_to_list in Hin. eauto.
  - intros [r Hr]. exists (key, r). split; [reflexivity |].
    apply elem_of_map_to_list, Hr.
Qed.

(** [X5] [GM_deleteValue(key)] on a script that has a cache entry, for a key
    that is not the name of a member of [Object.prototype]: the key is
    gone from the cache at once, [GM_getValue] falls back to the default,
    [GM_listValues] no longer lists the key, and the host is told with an
    [UpdateValue] whose value is [undefined]. *)
Theorem delete_then_get (id : Z) (key : string) (def : result) (s : store) :
  is_Some (values s !! id) ->
  inherited key = false ->
  exists s' l,
    GM_deleteValue id key s = Some s' /\
    GM_getValue id key def s' = Some def /\
    GM_listValues id s' = Some l /\ (key ∉ l) /\
    posted s' = posted s ++ [UpdateValue id key None].
Proof.
  intros [value Hv] Hk. unfold GM_deleteValue, loadValues. rewrite Hv. cbn.
  set (s' := dumpValue _ _ _ _).
  assert (Hv' : values s' !! id = Some (delete key value)).
  { subst s'. cbn. apply lookup_insert_eq. }
  destruct (listValues_elem id key s' _ Hv') as (l & Hl & Hin).
  exists s', l. split; [reflexivity |]. split.
  - unfold GM_getValue, loadValues. rewrite Hv'. cbn.
    rewrite lookup_delete_eq, Hk, andb_false_r. reflexivity.
  - split; [exact Hl |]. split; [| reflexivity].
    rewrite Hin, lookup_delete_eq. intros [x Hx]. discriminate.
Qed.

(** A write or a removal under one script id leaves the value object of
    every other script, and its prototype, as they were. *)
Lemma other_script_untouched (id id' : Z) (key : string) (v : json)
    (s s' : store) :
  id <> id' ->
  GM_setValue id key v s = Some s' \/ GM_deleteValue id key s = Some s' ->
  values s' !! id' = values s !! id' /\
  has_prototype id' s' = has_prototype id' s.
Proof.
  intros Hne Hop.
  destruct Hop as [Hop|Hop];
    unfold GM_setValue, GM_deleteValue, loadValues in Hop;
    destruct (values s !! id) as [value|]; cbn in Hop; try discriminate;
    injection Hop as <-.
  - unfold assign.
    destruct (_ && _ && _); [destruct (match jsonDump v with
                                       | Some (String c d) => _
                                       | _ => RawNull
                                       end) |]; cbn.
    + split; [reflexivity |]. unfold has_prototype. cbn. f_equal.
      apply bool_decide_ext. rewrite elem_of_union, elem_of_singleton.
      split; [intros [? | ?]; [congruence | assumption] | auto].
    + auto.
    + split; [apply lookup_insert_ne; exact Hne | reflexivity].
  - cbn. split; [apply lookup_insert_ne; exact Hne | reflexivity].
Qed.

(** [X6] What one script writes or deletes is invisible to every other script:
    reads and listings under a different script id are unchanged. *)
Theorem values_isolated (id id' : Z) (key key' : string) (v : json)
    (def : result) (s s' : store) :
  id <> id' ->
  GM_setValue id key v s = Some s' \/ GM_deleteValue id key s = Some s' ->
  GM_getValue id' key' def s' = GM_getValue id' key' def s /\
  GM_listValues id' s' = GM_listValues id' s.
Proof.
  intros Hne Hop.
  destruct (other_script_untouched id id' key v s s' Hne Hop) as [Hv Hp].
  unfold GM_getValue, GM_listValues, loadValues. rewrite Hv, Hp. auto.
Qed.

(** [X7] Writing a key other than [__proto__], or deleting any key, leaves
    what is read under every other key of the same script as it was. *)
Theorem writes_frame_other_keys (id : Z) (key key' : string) (v : json)
    (def : result) (s s' : store) :
  key <> key' ->
  (key <> "__proto__" /\ GM_setValue id key v s = Some s')
  \/ GM_deleteValue id key s = Some s' ->
  GM_getValue id key' def s' = GM_getValue id key' def s.
Proof.
  intros Hne Hop. unfold GM_getValue, loadValues.
  destruct Hop as [[Hk Hop]|Hop];
    unfold GM_setValue, GM_deleteValue, loadValues in Hop;
    destruct (values s !! id) as [value|]; cbn in Hop; try discriminate;
    injection Hop as <-.
  - rewrite assign_plain by exact Hk. cbn. rewrite lookup_insert_eq. cbn.
    rewrite lookup_insert_ne by exact Hne. reflexivity.
  - cbn. rewrite lookup_insert_eq. cbn.
    rewrite lookup_delete_ne by exact Hne. reflexivity.
Qed.

(** [X8] A value for which [jsonDump] gives [undefined] or the empty text is
    stored as [null]: under a key other than [__proto__] the key is listed
    by [GM_listValues], yet [GM_getValue] returns the default, and the host
    receives [null]. *)
Theorem unserializable_reads_default (id : Z) (key : string) (v : json)
    (def : result) (s : store) :
  is_Some (values s !! id) ->
  key <> "__proto__" ->
  jsonDump v = None \/ jsonDump v = Some EmptyString ->
  exists s' l,
    GM_setValue id key v s = Some s' /\
    GM_getValue id key def s' = Some def /\
    GM_listValues id s' = Some l /\ (key ∈ l) /\
    posted s' = posted s ++ [UpdateValue id key (Some RawNull)].
Proof.
  intros [value Hv] Hk Hd. unfold GM_setValue, loadValues. rewrite Hv.
  assert (Hraw : match jsonDump v with
                 | Some (String c d) => RawText ("o" +:+ String c d)
                 | _ => RawNull
                 end = RawNull) by (destruct Hd as [-> | ->]; reflexivity).
  rewrite Hraw. cbn. rewrite assign_plain by exact Hk.
  set (s' := dumpValue _ _ _ _).
  assert (Hv' : values s' !! id = Some (<[key := RawNull]> value)).
  { subst s'. cbn. apply lookup_insert_eq. }
  destruct (listValues_elem id key s' _ Hv') as (l & Hl & Hin).
  exists s', l. split; [reflexivity |]. split.
  - unfold GM_getValue, loadValues. rewrite Hv'. cbn.
    rewrite lookup_insert_eq. reflexivity.
  - split; [exact Hl |]. split; [| reflexivity].
    rewrite Hin, lookup_insert_eq. eauto.
Qed.

(** [X9] What [GM_getValue] makes of the cache entry of a script.  A key that
    is missing and is not the name of a member of [Object.prototype], a
    stored [null] and a stored empty text give the default; a payload
    tagged [o] that [jsonLoad] rejects, and a payload with a tag other than
    [o], [n], [b], come back as the text after the tag; the tags [n] and
    [b] go through [Number] and the comparison with ['true'].  For a
    missing key that names a member of [Object.prototype] the call throws
    as long as the value object has its prototype. *)
Theorem get_decodes_or_falls_back (id : Z) (key : string) (def : result)
    (s : store) (value : gmap string raw) :
  values s !! id = Some value ->
  ((value !! key = None /\ inherited key = false)
   \/ value !! key = Some RawNull
   \/ value !! key = Some (RawText EmptyString) ->
     GM_getValue id key def s = Some def) /\
  (forall text, value !! key = Some (RawText ("o" +:+ text)) ->
     jsonLoad text = None ->
     GM_getValue id key def s = Some (FromText text)) /\
  (forall tag text, value !! key = Some (RawText (String tag text)) ->
     tag <> "o"%char -> tag <> "n"%char -> tag <> "b"%char ->
     GM_getValue id key def s = Some (FromText text)) /\
  (forall text, value !! key = Some (RawText ("n" +:+ text)) ->
     GM_getValue id key def s = Some (FromNumber (Number text))) /\
  (forall text, value !! key = Some (RawText ("b" +:+ text)) ->
     GM_getValue id key def s
     = Some (FromBool (String.eqb text "true"))) /\
  (value !! key = None -> inherited key = true ->
     GM_getValue id key def s
     = if has_prototype id s then None else Some def).
Proof.
  intros Hv. unfold GM_getValue, loadValues. rewrite Hv. cbn.
  split_and!.
  - intros [[-> ->] | [-> | ->]]; rewrite ?andb_false_r; reflexivity.
  - intros text -> Hl. change ("o" +:+ text) with (String "o"%char text).
    unfold decode. cbn. rewrite Hl. reflexivity.
  - intros tag text -> Ho Hn Hb. unfold decode.
    destruct (Ascii.eqb_spec tag "o"%char); [contradiction |].
    destruct (Ascii.eqb_spec tag "n"%char); [contradiction |].
    destruct (Ascii.eqb_spec tag "b"%char); [contradiction |].
    reflexivity.
  - intros text ->. reflexivity.
  - intros text ->. reflexivity.
  - intros -> ->. rewrite andb_true_r. reflexivity.
Qed.

Lemma setValue_defined id key v s value :
  values s !! id = Some value ->
  key <> "__proto__" ->
  exists s' raw,
    GM_setValue id key v s = Some s' /\
    values s' !! id = Some (<[key := raw]> value) /\
    forall c d, jsonDump v = Some (String c d) ->
                raw = RawText (String "o"%char (String c d)).
Proof.
  intros Hv Hk. unfold GM_setValue, loadValues. rewrite Hv. cbn.
  rewrite assign_plain by exact Hk.
  eexists _, _. split; [reflexivity |]. split; [apply lookup_insert_eq |].
  intros c d ->. reflexivity.
Qed.

(** [X10] The last write to a key other than [__proto__] is the one read
    back, whatever was written before it. *)
Theorem last_write_wins (id : Z) (key : string) (v1 v2 : json)
    (def : result) (s : store) :
  is_Some (values s !! id) ->
  key <> "__proto__" ->
  serializable v2 ->
  exists s1 s2,
    GM_setValue id key v1 s = Some s1 /\
    GM_setValue id key v2 s1 = Some s2 /\
    GM_getValue id key def s2 = Some (FromJson v2).
Proof.
  intros [value Hv] Hk (d & Hd & Hne & Hl).
  destruct d as [|c d]; [congruence |].
  destruct (setValue_defined id key v1 s value Hv Hk)
    as (s1 & r1 & E1 & V1 & _).
  destruct (setValue_defined id key v2 s1 _ V1 Hk)
    as (s2 & r2 & E2 & V2 & R2).
  exists s1, s2. split; [exact E1 |]. split; [exact E2 |].
  unfold GM_getValue, loadValues. rewrite V2. cbn.
  rewrite lookup_insert_eq, (R2 c d Hd). f_equal. apply decode_object, Hl.
Qed.

Lemma UpdatedValues_step (updates : list (Z * gmap string raw)) :
  forall s,
  NoDup (updates.*1) ->
  let s' := handlers_UpdatedValues updates s in
  posted s' = posted s /\
  forall id,
    (values s !! id = None -> values s' !! id = None) /\
    (forall m, (id, m) ∈ updates -> is_Some (values s !! id) ->
               values s' !! id = Some m) /\
    (id ∉ updates.*1 -> values s' !! id = values s !! id).
Proof.
  induction updates as [|[i m] updates IH]; intros s Hnd; cbn.
  - split; [reflexivity |]. intros id. split_and!; auto.
    intros m0 Hin. apply elem_of_nil in Hin. contradiction.
  - apply NoDup_cons in Hnd as [Hi Hnd].
    set (s1 := match values s !! i with
               | Some _ =>
                   Store (<[i := m]> (values s)) (detached s ∖ {[i]})
                         (posted s)
               | None => s
               end).
    assert (Hp1 : posted s1 = posted s)
      by (subst s1; destruct (values s !! i); reflexivity).
    assert (H1 : forall id, values s1 !! id =
                   if decide (id = i)
                   then (match values s !! i with
                         | Some _ => Some m | None => None end)
                   else values s !! id).
    { intros id. subst s1. destruct (decide (id = i)) as [->|Hne].
      - destruct (values s !! i) eqn:E; cbn; [apply lookup_insert_eq | exact E].
      - destruct (values s !! i); cbn; [| reflexivity].
        apply lookup_insert_ne. congruence. }
    destruct (IH s1 Hnd) as [Hp Hid]. cbn zeta in Hp, Hid.
    unfold handlers_UpdatedValues in *. split; [congruence |].
    intros id. destruct (Hid id) as (A & B & C). specialize (H1 id).
    split_and!.
    + intros Hn. apply A. rewrite H1. destruct (decide (id = i)) as [->|];
        [rewrite Hn; reflexivity | exact Hn].
    + intros m0 Hin [x Hx]. apply elem_of_cons in Hin as [Heq|Hin].
      * injection Heq as -> ->. rewrite C by exact Hi.
        rewrite H1, decide_True by reflexivity. rewrite Hx. reflexivity.
      * apply (B m0 Hin). rewrite H1.
        destruct (decide (id = i)) as [->|]; [| eauto].
        rewrite Hx. eauto.
    + intros Hout. cbn in Hout. apply not_elem_of_cons in Hout as [Hne Hout].
      rewrite (C Hout), H1, decide_False by exact Hne. reflexivity.
Qed.

(** [X11] [UpdatedValues] with one mapping per script id: a script without a
    cache entry gets none; a script with one has its whole mapping
    replaced by the one sent; scripts not named keep theirs; nothing is
    posted. *)
Theorem UpdatedValues_replaces_known_only
    (updates : list (Z * gmap string raw)) (s : store) (id : Z) :
  NoDup (updates.*1) ->
  let s' := handlers_UpdatedValues updates s in
  posted s' = posted s /\
  (values s !! id = None -> values s' !! id = None) /\
  (forall m, (id, m) ∈ updates -> is_Some (values s !! id) ->
             values s' !! id = Some m) /\
  (id ∉ updates.*1 -> values s' !! id = values s !! id).
Proof.
  intros Hnd. destruct (UpdatedValues_step updates s Hnd) as [Hp Hid].
  split; [exact Hp | apply Hid].
Qed.

End ValuesMore.

(** ** Menu commands *)

Fixpoint colon_free (s : string) : Prop :=
  match s with
  | EmptyString => True
  | String c r => c <> ":"%char /\ colon_free r
  end.

Lemma pretty_N_char_no_colon (x : N) : pretty_N_char x <> ":"%char.
Proof. unfold pretty_N_char. repeat case_match; discriminate. Qed.

Lemma pretty_N_go_colon_free (x : N) :
  forall s, colon_free s -> colon_free (pretty_N_go x s).
Proof.
  induction (N.lt_wf_0 x) as [x _ IH]. intros s Hs.
  assert (x = 0 \/ 0 < x)%N as [-> | Hx] by lia.
  - rewrite pretty_N_go_0. exact Hs.
  - rewrite pretty_N_go_step by exact Hx. apply IH.
    + apply N.div_lt; [exact Hx | reflexivity].
    + split; [apply pretty_N_char_no_colon | exact Hs].
Qed.

Lemma pretty_N_colon_free (x : N) : colon_free (pretty x).
Proof.
  unfold pretty, pretty_N. case_decide.
  - split; [discriminate | exact I].
  - apply pretty_N_go_colon_free. exact I.
Qed.

Lemma pretty_Z_colon_free (z : Z) : colon_free (pretty z).
Proof.
  destruct z as [|p|p].
  - split; [discriminate | exact I].
  - apply pretty_N_colon_free.
  - change (pretty (Z.neg p)) with (String "-"%char (pretty (N.pos p))).
    split; [discriminate | apply pretty_N_colon_free].
Qed.

Lemma colon_split (a a' c c' : string) :
  colon_free a -> colon_free a' ->
  a +:+ ":" +:+ c = a' +:+ ":" +:+ c' -> a = a' /\ c = c'.
Proof.
  revert a'. induction a as [|x a IH]; intros [|x' a'] Ha Ha' E.
  - change (String ":"%char c = String ":"%char c') in E.
    injection E as ->. auto.
  - change (String ":"%char c = String x' (a' +:+ ":" +:+ c')) in E.
    injection E as E _. destruct Ha' as [Hx _]. congruence.
  - change (String x (a +:+ ":" +:+ c) = String ":"%char c') in E.
    injection E as E _. destruct Ha as [Hx _]. congruence.
  - change (String x (a +:+ ":" +:+ c) = String x' (a' +:+ ":" +:+ c')) in E.
    injection E as -> E. destruct Ha as [_ Ha], Ha' as [_ Ha'].
    destruct (IH a' Ha Ha' E) as [-> ->]. auto.
Qed.

Section MenuFacts.
Import Menu.
Context `{Host}.

(** The key of a menu command determines the script and the caption. *)
Lemma command_key_inj id id' cap cap' :
  command_key id cap = command_key id' cap' -> id = id' /\ cap = cap'.
Proof.
  unfold command_key. intros E.
  apply colon_split in E as [E ->]; try apply pretty_Z_colon_free.
  split; [| reflexivity]. apply (inj pretty), E.
Qed.

(** [X12] Commands of different scripts, or with different captions, never
    collide: after any later registration or removal under another
    (script, caption) pair, the [Command] message for the first pair still
    calls exactly the function registered for it. *)
Theorem menu_commands_do_not_collide (id id' : Z) (cap cap' : string)
    (f : nat) (other : option handler) (s : store) :
  (id, cap) <> (id', cap') ->
  let s1 := GM_registerMenuCommand id cap (HandlerFn f) s in
  let s2 := match other with
            | Some g => GM_registerMenuCommand id' cap' g s1
            | None => GM_unregisterMenuCommand id' cap' s1
            end in
  commands s2 !! command_key id cap = Some (HandlerFn f) /\
  ran (state_of (handlers_Command (command_key id cap) s2)) = ran s ++ [f].
Proof.
  intros Hne. cbn zeta.
  assert (Hk : command_key id' cap' <> command_key id cap).
  { intros E. apply command_key_inj in E as [-> ->]. contradiction. }
  assert (Hl : commands
                 match other with
                 | Some g =>
                     GM_registerMenuCommand id' cap' g
                       (GM_registerMenuCommand id cap (HandlerFn f) s)
                 | None =>
                     GM_unregisterMenuCommand id' cap'
                       (GM_registerMenuCommand id cap (HandlerFn f) s)
                 end !! command_key id cap = Some (HandlerFn f)).
  { destruct other as [g|]; cbn.
    - rewrite lookup_insert_ne by exact Hk. apply lookup_insert_eq.
    - rewrite lookup_delete_ne by exact Hk. apply lookup_insert_eq. }
  split; [exact Hl |].
  unfold handlers_Command. rewrite Hl.
  destruct other as [g|]; destruct (user_throws f VUndefined); reflexivity.
Qed.

Lemma colon_not_free (a c : string) : ~ colon_free (a +:+ ":" +:+ c).
Proof.
  induction a as [|x a IH].
  - change (~ colon_free (String ":"%char c)). intros [Hx _]. congruence.
  - change (~ colon_free (String x (a +:+ ":" +:+ c))). intros [_ Hc].
    exact (IH Hc).
Qed.

Lemma prototype_names_colon_free :
  Forall colon_free object_prototype_names.
Proof.
  unfold object_prototype_names.
  repeat (apply Forall_cons; split;
          [cbn; repeat split; discriminate |]).
  apply Forall_nil_2.
Qed.

(** A key [`${id}:${cap}`] is never the name of an inherited member. *)
Lemma command_key_not_inherited id cap : inherited (command_key id cap) = false.
Proof.
  unfold inherited. apply bool_decide_eq_false. intros Hin.
  pose proof prototype_names_colon_free as Hf.
  rewrite Forall_forall in Hf. specialize (Hf _ Hin).
  exact (colon_not_free _ _ Hf).
Qed.

(** [X13] After [GM_unregisterMenuCommand] the [Command] message for that
    caption calls nothing and changes nothing; the same holds for a key
    that was never registered and is not the name of a member of
    [Object.prototype].  For such a name the inherited member is called:
    the registry is left as it was, and the call returns or throws as
    that member does without a receiver. *)
Theorem unregistered_command_is_ignored (id : Z) (cap : string) (s : store) :
  let s1 := GM_unregisterMenuCommand id cap s in
  posted s1 = posted s ++ [UnregisterMenu (command_key id cap) cap] /\
  handlers_Command (command_key id cap) s1 = Returned s1 /\
  (forall data, commands s !! data = None -> inherited data = false ->
                handlers_Command data s = Returned s) /\
  (forall data, commands s !! data = None -> inherited data = true ->
                handlers_Command data s
                = if member_call_throws data then Threw s else Returned s).
Proof.
  cbn zeta. split; [reflexivity |]. split; [| split].
  - unfold handlers_Command, GM_unregisterMenuCommand. cbn [commands].
    rewrite lookup_delete_eq, command_key_not_inherited. reflexivity.
  - intros data Hd Hi. unfold handlers_Command. rewrite Hd, Hi. reflexivity.
  - intros data Hd Hi. unfold handlers_Command. rewrite Hd, Hi. reflexivity.
Qed.

End MenuFacts.

Lemma menu_commands_do_not_collide_witness :
  let s1 := Menu.GM_registerMenuCommand 1 "Open" (Menu.HandlerFn 1)
              (Menu.Store ∅ [] []) in
  let s2 := Menu.GM_registerMenuCommand 2 "Open" (Menu.HandlerFn 2) s1 in
  Menu.commands s2 !! Menu.command_key 1 "Open" = Some (Menu.HandlerFn 1) /\
  Menu.ran (state_of (@Menu.handlers_Command throwing_host
                        (Menu.command_key 1 "Open") s2)) = [] ++ [1%nat].
Proof.
  apply (@menu_commands_do_not_collide throwing_host 1 2 "Open" "Open" 1%nat
           (Some (Menu.HandlerFn 2)) (Menu.Store ∅ [] [])).
  discriminate.
Defined.

(** ** Resources *)

Section ResourceFacts.
Import Resources.
Context `{Blobs}.



(** [X15] A declared resource for which neither the memo nor anything it
    inherits holds a value, whose cache entry is found and for which
    [cache2blobUrl] returns a non-empty URL, under a key other than
    [__proto__]: the first call makes one blob URL and remembers it under
    the resource's key; every later call under a name with the same key
    returns that URL and makes no new one. *)
Theorem resource_url_is_memoized (e : env) (name name' key url : string)
    (raw : item) (s : state) :
  resources e !! name = Some key ->
  resources e !! name' = Some key ->
  key <> "__proto__" ->
  holds (get (urls s) key) = false ->
  cached e (Text key) = Some raw ->
  holds (Some raw) = true ->
  cache2blobUrl (created s) raw = Some url ->
  url <> EmptyString ->
  let '(url1, s1) := GM_getResourceURL e name s in
  let '(url2, s2) := GM_getResourceURL e name' s1 in
  url1 = UrlIs (Text url) /\
  created s1 = S (created s) /\
  urls s1 !! key = Some url /\
  url2 = url1 /\
  s2 = s1.
Proof.
  intros Hn Hn' Hk Hu Hc Hr Hb Hne.
  assert (Hg : forall n, resources e !! n = Some key ->
                         get (resources e) n = Some (Text key))
    by (intros n Hres; unfold get; rewrite Hres; reflexivity).
  assert (Hrem : remember key url (urls s) = <[key := url]> (urls s)).
  { unfold remember. destruct (String.eqb_spec key "__proto__");
      [contradiction | reflexivity]. }
  assert (E1 : GM_getResourceURL e name s
               = (UrlIs (Text url),
                  State (<[key := url]> (urls s)) (S (created s)))).
  { unfold GM_getResourceURL. rewrite (Hg _ Hn). cbn [key_of default].
    rewrite Hu, Hc, Hr.
    change (default (Text key) (Some raw)) with raw.
    rewrite Hb, Hrem. reflexivity. }
  rewrite E1.
  assert (E2 : GM_getResourceURL e name'
                 (State (<[key := url]> (urls s)) (S (created s)))
               = (UrlIs (Text url),
                  State (<[key := url]> (urls s)) (S (created s)))).
  { unfold GM_getResourceURL. rewrite (Hg _ Hn'). cbn [key_of default urls].
    unfold get. rewrite lookup_insert_eq. cbn [holds].
    destruct (String.eqb_spec url EmptyString); [contradiction |].
    reflexivity. }
  rewrite E2. cbn [urls created]. rewrite lookup_insert_eq. auto.
Qed.


End ResourceFacts.

Definition demo_blobs : Blobs :=
  {| cache2blobUrl := fun n raw => Some ("blob:" +:+ pretty n);
     decode_resource := fun raw => Some raw;
     member_text := fun name => "function " +:+ name |}.

Definition demo_env : Resources.env :=
  Resources.Env (<["icon" := "http://a/i.png"]> (<["logo" := "http://a/i.png"]> ∅))
                (<["http://a/i.png" := "cache/i"]> ∅)
                (<["cache/i" := "data:image/png;base64,AAAA"]> ∅).

Lemma resource_url_is_memoized_witness :
  let '(url1, s1) := @Resources.GM_getResourceURL demo_blobs demo_env "icon"
                       (Resources.State ∅ 0) in
  let '(url2, s2) := @Resources.GM_getResourceURL demo_blobs demo_env "logo" s1 in
  url1 = Resources.UrlIs (Text "blob:0") /\ Resources.created s1 = 1%nat /\
  Resources.urls s1 !! "http://a/i.png" = Some "blob:0" /\
  url2 = url1 /\ s2 = s1.
Proof.
  apply (@resource_url_is_memoized demo_blobs demo_env "icon" "logo"
           "http://a/i.png" "blob:0" (Text "data:image/png;base64,AAAA")
           (Resources.State ∅ 0));
    first [discriminate | vm_compute; reflexivity].
Defined.


(** ** More on the sandbox *)

Section SandboxMore.
Import Sandbox.
Context `{Page}.

(** The properties of the view before the loop over [bridge.props]. *)
Definition fixed_part (h : heap) : gmap string prop * heap :=
  foldl bind_method
        (<["eval" := Data (global_get "eval" (h ++ [Plain ∅]))]>
           (<["browser" := Data VUndefined]> ∅),
         h ++ [Plain ∅])
        bound_names.

Lemma getWrapper_unfold (h : heap) :
  getWrapper h =
    (length h,
     <[length h := Plain (foldl wrap_property (fst (fixed_part h)) bridge_props)]>
       (snd (fixed_part h))).
Proof.
  unfold getWrapper, fixed_part. cbn [alloc foldl blocked_names copied_names].
  destruct (foldl bind_method _ bound_names) as [w3 h3]. reflexivity.
Qed.

Lemma global_get_app name (h : heap) o x :
  h !! unsafeWindow = Some x -> global_get name (h ++ [o]) = global_get name h.
Proof.
  intros Hg. unfold global_get. rewrite (props_of_app_old _ _ _ _ Hg).
  reflexivity.
Qed.

(** Every property set by the loop over the bound-method list is a data
    property. *)
Definition all_data (w : gmap string prop) : Prop :=
  forall n p, w !! n = Some p -> exists v, p = Data v.

Lemma foldl_bind_method_data names : forall w (h : heap),
  all_data w -> all_data (fst (foldl bind_method (w, h) names)).
Proof.
  induction names as [|n names IH]; intros w h Hw; cbn [foldl]; [exact Hw |].
  unfold bind_method at 2. destruct (truthy (global_get n h)); cbn [alloc].
  - apply IH. intros m p Hm. destruct (decide (m = n)) as [->|Hne].
    + rewrite lookup_insert_eq in Hm. injection Hm as <-. eauto.
    + rewrite lookup_insert_ne in Hm by congruence. eauto.
  - apply IH, Hw.
Qed.

(** A name of the bound-method list whose method is truthy on the real
    object gets a new function object that holds that method. *)
Lemma foldl_bind_method_bound names : forall w (h : heap) name x,
  NoDup names -> name ∈ names ->
  h !! unsafeWindow = Some x ->
  truthy (global_get name h) = true ->
  let r := foldl bind_method (w, h) names in
  exists f, fst r !! name = Some (Data (VRef f)) /\
            snd r !! f = Some (BoundFn (global_get name h)) /\
            (length h <= f)%nat.
Proof.
  induction names as [|n names IH]; intros w h name x Hnd Hin Hg Ht.
  { apply elem_of_nil in Hin. contradiction. }
  apply NoDup_cons in Hnd as [Hn Hnd]. cbn zeta. cbn [foldl].
  destruct (decide (name = n)) as [->|Hne].
  - assert (E : bind_method (w, h) n
                = (<[n := Data (VRef (length h))]> w,
                   h ++ [BoundFn (global_get n h)])).
    { unfold bind_method. rewrite Ht. reflexivity. }
    rewrite E.
    destruct (foldl_bind_method_spec names
                (<[n := Data (VRef (length h))]> w)
                (h ++ [BoundFn (global_get n h)])) as [Hk Hx].
    exists (length h). split; [| split; [| lia]].
    + rewrite (Hk n Hn). apply lookup_insert_eq.
    + apply Hx. apply list_lookup_middle. reflexivity.
  - apply elem_of_cons in Hin as [?|Hin]; [contradiction |].
    assert (E : bind_method (w, h) n
                = if truthy (global_get n h)
                  then (<[n := Data (VRef (length h))]> w,
                        h ++ [BoundFn (global_get n h)])
                  else (w, h)).
    { unfold bind_method. destruct (truthy (global_get n h)); reflexivity. }
    rewrite E. destruct (truthy (global_get n h)).
    + destruct (IH (<[n := Data (VRef (length h))]> w)
                   (h ++ [BoundFn (global_get n h)]) name x Hnd Hin)
        as (f & Hf1 & Hf2 & Hf3).
      { apply lookup_app_l_Some, Hg. }
      { rewrite (global_get_app _ _ _ _ Hg). exact Ht. }
      exists f. rewrite (global_get_app _ _ _ _ Hg) in Hf2.
      rewrite length_app in Hf3. cbn in Hf3. split_and!; [done | done | lia].
    + apply (IH w h name x Hnd Hin Hg Ht).
Qed.

Lemma bound_names_NoDup : NoDup bound_names.
Proof. apply (bool_decide_unpack _). vm_compute. exact I. Qed.

Lemma wrap_property_reacted names : forall w n,
  foldl wrap_property w names !! n = Some Reacted ->
  w !! n = Some Reacted \/ String.eqb (String.substring 0 2 n) "on" = true.
Proof.
  induction names as [|m names IH]; intros w n Hn; cbn [foldl] in Hn; [auto |].
  apply IH in Hn as [Hn | Hn]; [| auto].
  unfold wrap_property in Hn.
  destruct (decide (is_Some (w !! m))); [auto |].
  destruct (inherited m); [auto |].
  destruct (String.eqb (String.substring 0 2 m) "on") eqn:E.
  - destruct (decide (n = m)) as [->|Hne]; [auto |].
    rewrite lookup_insert_ne in Hn by congruence. auto.
  - destruct (decide (n = m)) as [->|Hne].
    + rewrite lookup_insert_eq in Hn. discriminate.
    + rewrite lookup_insert_ne in Hn by congruence. auto.
Qed.

Lemma fixed_part_facts (h : heap) :
  all_data (fst (fixed_part h)) /\
  (S (length h) <= length (snd (fixed_part h)))%nat /\
  (forall i x, h !! i = Some x -> snd (fixed_part h) !! i = Some x) /\
  snd (fixed_part h) !! length h = Some (Plain ∅) /\
  fst (fixed_part h) !! "browser" = Some (Data VUndefined) /\
  (forall x, h !! unsafeWindow = Some x ->
     fst (fixed_part h) !! "eval" = Some (Data (global_get "eval" h))).
Proof.
  unfold fixed_part.
  set (w2 := <["eval" := _]> _). set (h1 := h ++ [Plain ∅]).
  pose proof (foldl_bind_method_spec bound_names w2 h1) as [Hk Hx].
  pose proof (foldl_bind_method_length bound_names (w2, h1)) as Hl.
  cbn [snd] in Hl.
  assert (Hd : all_data w2).
  { subst w2. intros n p Hn.
    destruct (decide (n = "eval")) as [->|N1].
    { rewrite lookup_insert_eq in Hn. injection Hn as <-. eauto. }
    rewrite lookup_insert_ne in Hn by congruence.
    destruct (decide (n = "browser")) as [->|N2].
    { rewrite lookup_insert_eq in Hn. injection Hn as <-. eauto. }
    rewrite lookup_insert_ne in Hn by congruence. discriminate. }
  split_and!.
  - apply foldl_bind_method_data, Hd.
  - subst h1. rewrite length_app in Hl. cbn [length] in Hl. lia.
  - intros i x Hi. apply Hx. subst h1. apply lookup_app_l_Some, Hi.
  - apply Hx. subst h1. apply list_lookup_middle. reflexivity.
  - rewrite Hk by (apply (bool_decide_unpack _); vm_compute; exact I).
    subst w2. rewrite lookup_insert_ne by discriminate. apply lookup_insert_eq.
  - intros x Hg.
    rewrite Hk by (apply (bool_decide_unpack _); vm_compute; exact I).
    subst w2 h1. rewrite lookup_insert_eq, (global_get_app _ _ _ _ Hg).
    reflexivity.
Qed.

(** Reads of a data property of the view: the value it holds, which only
    a write through the view changes. *)
Fixpoint stored_reads (acts : list action) (current : val) : list val :=
  match acts with
  | [] => []
  | Read :: rest => current :: stored_reads rest current
  | Write v :: rest => stored_reads rest v
  | PageWrite _ :: rest => stored_reads rest current
  end.

Lemma observe_data view name acts : forall (h : heap) v,
  accessor_at view name (Data v) h ->
  observe view name acts h = stored_reads acts v.
Proof.
  induction acts as [|a acts IH]; intros h v Hacc; [reflexivity |].
  pose proof Hacc as (Hne & (ps & Hv & Hp) & gps & Hg).
  assert (Hps : props_of view h = ps) by (unfold props_of; rewrite Hv; done).
  destruct a as [|v'|v']; cbn [observe stored_reads].
  - unfold get_prop. rewrite Hps, Hp. rewrite (IH _ _ Hacc). reflexivity.
  - unfold set_prop. rewrite Hps, Hp.
    apply IH. eapply accessor_at_view_insert; eassumption.
  - apply IH. apply accessor_at_global_set, Hacc.
Qed.

Lemma getWrapper_data (h : heap) name v gps :
  h !! unsafeWindow = Some (Plain gps) ->
  fst (fixed_part h) !! name = Some (Data v) ->
  accessor_at (fst (getWrapper h)) name (Data v) (snd (getWrapper h)).
Proof.
  intros Hg Hn. rewrite getWrapper_unfold. cbn [fst snd].
  destruct (fixed_part_facts h) as (_ & Hl & Hx & _).
  pose proof (lookup_lt_Some _ _ _ Hg) as Hlt.
  assert (Hne : length h <> unsafeWindow) by lia.
  split; [exact Hne |]. split.
  - eexists. split; [apply list_lookup_insert_eq; lia |].
    rewrite foldl_wrap_property_keep by (rewrite Hn; eauto). exact Hn.
  - exists gps. rewrite list_lookup_insert_ne by exact Hne. apply Hx, Hg.
Qed.

(** [X17] The blocked name: [browser] reads as [undefined] through the view
    whatever the real object holds and whatever the page assigns later;
    only a write through the view changes what is read. *)
Theorem view_blocks_browser (h : heap) (gps : gmap string prop)
    (acts : list action) :
  h !! unsafeWindow = Some (Plain gps) ->
  let '(view, h') := getWrapper h in
  observe view "browser" acts h' = stored_reads acts VUndefined.
Proof.
  intros Hg. destruct (fixed_part_facts h) as (_ & _ & _ & _ & Hb & _).
  pose proof (getWrapper_data h "browser" VUndefined gps Hg Hb) as Hacc.
  destruct (getWrapper h) as [view h']. apply observe_data, Hacc.
Qed.

(** [X18] [eval] is copied when the view is built: the view keeps the value the
    real object had at that moment, not rewritten and not followed when the
    page replaces it. *)
Theorem view_copies_eval (h : heap) (gps : gmap string prop)
    (acts : list action) :
  h !! unsafeWindow = Some (Plain gps) ->
  let '(view, h') := getWrapper h in
  observe view "eval" acts h' = stored_reads acts (global_get "eval" h).
Proof.
  intros Hg. destruct (fixed_part_facts h) as (_ & _ & _ & _ & _ & He).
  pose proof (getWrapper_data h "eval" _ gps Hg (He _ Hg)) as Hacc.
  destruct (getWrapper h) as [view h']. apply observe_data, Hacc.
Qed.

(** [X19] A name of the bound-method list whose method exists on the real
    object: the view holds a function object of its own, made for this
    view, that forwards to the method found when the view was built; what
    the page assigns to the real property later is not seen.  Without such
    a method, and when [bridge.props] does not list the name either, the
    view has no property of that name. *)
Theorem view_binds_methods (h : heap) (gps : gmap string prop)
    (name : string) (acts : list action) :
  h !! unsafeWindow = Some (Plain gps) ->
  name ∈ bound_names ->
  let '(view, h') := getWrapper h in
  (truthy (global_get name h) = true ->
     exists f, h !! f = None /\
               h' !! f = Some (BoundFn (global_get name h)) /\
               observe view name acts h' = stored_reads acts (VRef f)) /\
  (truthy (global_get name h) = false -> name ∉ bridge_props ->
     props_of view h' !! name = None).
Proof.
  intros Hg Hin.
  pose proof (lookup_lt_Some _ _ _ Hg) as Hlt.
  assert (Hacc' : forall f, fst (fixed_part h) !! name = Some (Data (VRef f)) ->
            accessor_at (length h) name (Data (VRef f))
              (<[length h :=
                   Plain (foldl wrap_property (fst (fixed_part h)) bridge_props)]>
                 (snd (fixed_part h)))).
  { intros f Hf. pose proof (getWrapper_data h name (VRef f) gps Hg Hf) as Ha.
    rewrite getWrapper_unfold in Ha. exact Ha. }
  rewrite getWrapper_unfold. cbv beta iota. split.
  - intros Ht.
    destruct (foldl_bind_method_bound bound_names
                (<["eval" := Data (global_get "eval" (h ++ [Plain ∅]))]>
                   (<["browser" := Data VUndefined]> ∅))
                (h ++ [Plain ∅]) name (Plain gps) bound_names_NoDup Hin)
      as (f & Hf1 & Hf2 & Hf3).
    { apply lookup_app_l_Some, Hg. }
    { rewrite (global_get_app _ _ _ _ Hg). exact Ht. }
    fold (fixed_part h) in Hf1, Hf2.
    rewrite (global_get_app _ _ _ _ Hg) in Hf2.
    rewrite length_app in Hf3. cbn [length] in Hf3.
    exists f. split; [apply lookup_ge_None; lia |]. split.
    + rewrite list_lookup_insert_ne by lia. exact Hf2.
    + apply observe_data, Hacc', Hf1.
  - intros Ht Hout.
    destruct (fixed_part_facts h) as (_ & Hl & _).
    rewrite props_of_insert by lia.
    assert (Hnone : fst (fixed_part h) !! name = None).
    { unfold fixed_part.
      set (w2 := <["eval" := _]> _). set (h1 := h ++ [Plain ∅]).
      assert (G : forall names w (h0 : heap) x,
                h0 !! unsafeWindow = Some x ->
                global_get name h0 = global_get name h ->
                w !! name = None ->
                fst (foldl bind_method (w, h0) names) !! name = None).
      { induction names as [|n names IH]; intros w h0 x Hx Hsame Hw;
          cbn [foldl]; [exact Hw |].
        assert (E : bind_method (w, h0) n
                    = if truthy (global_get n h0)
                      then (<[n := Data (VRef (length h0))]> w,
                            h0 ++ [BoundFn (global_get n h0)])
                      else (w, h0)).
        { unfold bind_method. destruct (truthy (global_get n h0)); reflexivity. }
        rewrite E. destruct (truthy (global_get n h0)) eqn:Et.
        - apply (IH _ _ x); [apply lookup_app_l_Some, Hx | |].
          + rewrite (global_get_app _ _ _ _ Hx). exact Hsame.
          + apply lookup_insert_None. split; [exact Hw |].
            intros ->. congruence.
        - apply (IH _ _ x); assumption. }
      apply (G bound_names w2 h1 (Plain gps)).
      - subst h1. apply lookup_app_l_Some, Hg.
      - subst h1. apply (global_get_app _ _ _ _ Hg).
      - subst w2. apply lookup_insert_None. split.
        + apply lookup_insert_None. split; [apply lookup_empty |].
          intros <-. revert Hin. apply (bool_decide_unpack _). vm_compute. exact I.
        + intros <-. revert Hin. apply (bool_decide_unpack _). vm_compute. exact I. }
    clear Hacc'. revert Hnone. generalize (fst (fixed_part h)).
    induction bridge_props as [|n names IH]; intros w Hw; cbn [foldl];
      [exact Hw |].
    apply not_elem_of_cons in Hout as [Hne Hout].
    apply (IH Hout). rewrite wrap_property_other by congruence. exact Hw.
Qed.

(** *** The whole of [wrapGM] *)

(** The heap after the [window.close] step. *)
Definition after_close (g : list string) (window : nat) (h2 : heap) : heap :=
  if includes (normalised g) "window.close"
  then set_prop window "close" (VRef (length h2)) (h2 ++ [TabCloseFn])
  else h2.

Lemma wrapGM_parts (sc : script) (code : string) (h : heap) :
  let g := default [] (grant (script_meta sc)) in
  let th := if no_grant g then (length h, h ++ [Plain ∅])
            else getWrapper (h ++ [Plain ∅]) in
  let window := if no_grant g then unsafeWindow else fst th in
  let h3 := after_close g window (snd th) in
  let tf := gmFunctions (length h3) (h3 ++ [InfoObj (gmInfo sc code)]) in
  wrapGM sc code h =
    (match grant (script_meta sc) with
     | Some _ => set_grant (normalised g) sc
     | None => sc
     end,
     Wrapped (fst th) (length h),
     <[length h :=
         Plain (foldl (define (fst tf))
                      (<["window" := Data (VRef window)]> ∅)
                      (normalised g))]>
       (foldl (label (length h) (fst tf)) (snd tf) (normalised g))).
Proof.
  cbv zeta. unfold wrapGM, after_close. cbn [alloc].
  fold (normalised (default [] (grant (script_meta sc)))).
  destruct (no_grant (default [] (grant (script_meta sc)))).
  - cbn [fst snd].
    destruct (includes _ "window.close"); cbn [alloc];
      destruct (gmFunctions _ _); rewrite foldl_attach; reflexivity.
  - destruct (getWrapper (h ++ [Plain ∅])) as [w hw]. cbn [fst snd].
    destruct (includes _ "window.close"); cbn [alloc];
      destruct (gmFunctions _ _); rewrite foldl_attach; reflexivity.
Qed.

(** The two names of [gmFunctions] whose value is an imported function. *)
Definition imported_names : list string := ["GM_xmlhttpRequest"; "GM_download"].

Lemma add_function_step t (h : heap) n :
  add_function (t, h) n
  = if bool_decide (n ∈ imported_names)
    then (<[n := VRef (if String.eqb n "GM_xmlhttpRequest"
                       then onRequestCreate else onDownload)]> t, h)
    else (<[n := VRef (length h)]> t, h ++ [CapabilityFn n None]).
Proof.
  unfold add_function, imported_names.
  destruct (String.eqb_spec n "GM_xmlhttpRequest") as [->|H1].
  { rewrite bool_decide_eq_true_2 by (apply elem_of_cons; auto). reflexivity. }
  destruct (String.eqb_spec n "GM_download") as [->|H2].
  { rewrite bool_decide_eq_true_2
      by (apply elem_of_cons; right; apply elem_of_cons; auto).
    reflexivity. }
  rewrite bool_decide_eq_false_2; [reflexivity |].
  rewrite !elem_of_cons, elem_of_nil. tauto.
Qed.

Lemma add_function_table names : forall t (h : heap),
  NoDup names ->
  let r := foldl add_function (t, h) names in
  (forall name, name ∈ names -> name ∉ imported_names ->
     exists f, fst r !! name = Some (VRef f) /\
               snd r !! f = Some (CapabilityFn name None) /\
               (length h <= f)%nat) /\
  (forall name, name ∈ names -> name ∈ imported_names ->
     fst r !! name = Some (VRef (if String.eqb name "GM_xmlhttpRequest"
                                 then onRequestCreate else onDownload))) /\
  (forall name, name ∉ names -> fst r !! name = t !! name) /\
  (forall i x, h !! i = Some x -> snd r !! i = Some x).
Proof.
  induction names as [|n names IH]; intros t h Hnd; cbv zeta; cbn [foldl].
  - split_and!; [| | auto | auto];
      intros name Hin; apply elem_of_nil in Hin; contradiction.
  - apply NoDup_cons in Hnd as [Hn Hnd].
    rewrite add_function_step. case_bool_decide as Himp.
    + destruct (IH (<[n := VRef (if String.eqb n "GM_xmlhttpRequest"
                                 then onRequestCreate else onDownload)]> t)
                   h Hnd) as (A & A' & B & C).
      split_and!.
      * intros name Hin Hout. apply elem_of_cons in Hin as [->|Hin];
          [contradiction |]. apply A; assumption.
      * intros name Hin Hi. apply elem_of_cons in Hin as [->|Hin].
        -- rewrite (B n Hn). apply lookup_insert_eq.
        -- apply A'; assumption.
      * intros name Hout. apply not_elem_of_cons in Hout as [Hne Hout].
        rewrite (B name Hout). apply lookup_insert_ne. congruence.
      * exact C.
    + destruct (IH (<[n := VRef (length h)]> t) (h ++ [CapabilityFn n None]) Hnd)
        as (A & A' & B & C).
      split_and!.
      * intros name Hin Hout. apply elem_of_cons in Hin as [->|Hin].
        -- exists (length h). rewrite (B n Hn), lookup_insert_eq.
           split; [reflexivity |]. split; [| lia].
           apply C, list_lookup_middle. reflexivity.
        -- destruct (A name Hin Hout) as (f & F1 & F2 & F3). exists f.
           rewrite length_app in F3. cbn [length] in F3.
           split_and!; [done | done | lia].
      * intros name Hin Hi. apply elem_of_cons in Hin as [->|Hin];
          [contradiction |]. apply A'; assumption.
      * intros name Hout. apply not_elem_of_cons in Hout as [Hne Hout].
        rewrite (B name Hout). apply lookup_insert_ne. congruence.
      * intros i x Hi. apply C, lookup_app_l_Some, Hi.
Qed.

Lemma function_names_NoDup : NoDup function_names.
Proof. apply (bool_decide_unpack _). vm_compute. exact I. Qed.

Lemma define_other table gm a name :
  a <> name -> define table gm a !! name = gm !! name.
Proof.
  intros Hne. unfold define. destruct (table !! a); [apply lookup_insert_ne, Hne |].
  destruct (inherited a); [apply lookup_insert_ne, Hne | reflexivity].
Qed.

Lemma define_fixed table grant : forall gm name v,
  name ∈ grant -> table !! name = Some v ->
  foldl (define table) gm grant !! name = Some (Fixed v).
Proof.
  induction grant as [|g grant IH]; intros gm name v Hin Ht.
  { apply elem_of_nil in Hin. contradiction. }
  cbn [foldl]. destruct (decide (name ∈ grant)) as [Hin'|Hout].
  - apply IH; assumption.
  - apply elem_of_cons in Hin as [->|?]; [| contradiction].
    assert (G : forall l gm0, g ∉ l -> foldl (define table) gm0 l !! g = gm0 !! g).
    { induction l as [|a l IHl]; intros gm0 Hl; cbn [foldl]; [reflexivity |].
      apply not_elem_of_cons in Hl as [Hne Hl]. rewrite (IHl _ Hl).
      apply define_other. congruence. }
    rewrite (G grant _ Hout). unfold define. rewrite Ht.
    apply lookup_insert_eq.
Qed.

Lemma set_prop_keeps_old (view : nat) (name : string) (v : val) (h : heap)
    (n : nat) :
  (n <= view)%nat ->
  props_of view h !! name <> Some Reacted ->
  forall i x, (i < n)%nat -> h !! i = Some x ->
              set_prop view name v h !! i = Some x.
Proof.
  intros Hle Hr i x Hi Hx. unfold set_prop.
  destruct (props_of view h !! name) as [[| | |]|]; try contradiction;
    try exact Hx; rewrite list_lookup_insert_ne by lia; exact Hx.
Qed.

Lemma no_grant_normalised (g : list string) :
  no_grant g = true -> normalised g = ["unsafeWindow"; "GM_info"].
Proof.
  unfold normalised. intros Hg. rewrite Hg.
  destruct g as [|a [|b g]]; try discriminate; reflexivity.
Qed.

Lemma view_close_not_reacted (h : heap) :
  props_of (length h) (snd (getWrapper h)) !! "close" <> Some Reacted.
Proof.
  rewrite getWrapper_unfold. cbn [snd].
  destruct (fixed_part_facts h) as (Hd & Hl & _).
  rewrite props_of_insert by lia.
  intros Hr. apply wrap_property_reacted in Hr as [Hr | Hr].
  - destruct (Hd _ _ Hr) as [v Hv]. discriminate.
  - vm_compute in Hr. discriminate.
Qed.

Lemma after_close_length g window (h2 : heap) :
  (length h2 <= length (after_close g window h2))%nat.
Proof.
  unfold after_close. destruct (includes _ _); [| lia].
  rewrite set_prop_length, length_app. cbn [length]. lia.
Qed.

Lemma this_and_heap (g : list string) (h : heap) :
  let th := if no_grant g then (length h, h ++ [Plain ∅])
            else getWrapper (h ++ [Plain ∅]) in
  fst th = (if no_grant g then length h else S (length h)) /\
  (S (length h) <= length (snd th))%nat.
Proof.
  cbv zeta. destruct (no_grant g); cbn [fst snd].
  - rewrite length_app. cbn [length]. split; [reflexivity | lia].
  - pose proof (getWrapper_fst (h ++ [Plain ∅])) as Hf.
    pose proof (getWrapper_length (h ++ [Plain ∅])) as Hl.
    rewrite length_app in Hf, Hl. cbn [length] in Hf, Hl. split; lia.
Qed.

(** Objects that existed before the call are still there when the
    entries of [gmFunctions] have been made. *)
Lemma before_grants (sc : script) (code : string) (h : heap) i x :
  h !! i = Some x ->
  let g := default [] (grant (script_meta sc)) in
  let th := if no_grant g then (length h, h ++ [Plain ∅])
            else getWrapper (h ++ [Plain ∅]) in
  let window := if no_grant g then unsafeWindow else fst th in
  let h3 := after_close g window (snd th) in
  let tf := gmFunctions (length h3) (h3 ++ [InfoObj (gmInfo sc code)]) in
  snd tf !! i = Some x.
Proof.
  intros Hx. pose proof (lookup_lt_Some _ _ _ Hx) as Hi. cbv zeta.
  set (g := default [] (grant (script_meta sc))).
  set (th := if no_grant g then (length h, h ++ [Plain ∅])
             else getWrapper (h ++ [Plain ∅])).
  set (window := if no_grant g then unsafeWindow else fst th).
  assert (Hth : snd th !! i = Some x /\
                (no_grant g = false ->
                 fst th = S (length h) /\
                 props_of (fst th) (snd th) !! "close" <> Some Reacted)).
  { subst th. destruct (no_grant g).
    - split; [apply lookup_app_l_Some, Hx | discriminate].
    - pose proof (getWrapper_fst (h ++ [Plain ∅])) as Hf.
      pose proof (view_close_not_reacted (h ++ [Plain ∅])) as Hr.
      rewrite length_app in Hf, Hr. cbn [length] in Hf, Hr.
      replace (length h + 1)%nat with (S (length h)) in Hf, Hr by lia.
      split.
      + rewrite getWrapper_unfold. cbn [snd].
        rewrite list_lookup_insert_ne by (rewrite length_app; cbn; lia).
        apply fixed_part_facts, lookup_app_l_Some, Hx.
      + intros _. rewrite Hf. split; [reflexivity | exact Hr]. }
  destruct Hth as [Hth Hview].
  assert (H3 : after_close g window (snd th) !! i = Some x).
  { unfold after_close. destruct (includes (normalised g) "window.close") eqn:Ei;
      [| exact Hth].
    destruct (no_grant g) eqn:Eg.
    { rewrite (no_grant_normalised g Eg) in Ei. vm_compute in Ei. discriminate. }
    destruct (Hview eq_refl) as [Hv Hr]. subst window.
    apply (set_prop_keeps_old _ _ _ _ (length h)); [lia | | exact Hi |].
    - unfold props_of in *.
      assert (Hlt : (fst th < length (snd th))%nat).
      { rewrite Hv. subst th. rewrite ?Eg.
        pose proof (getWrapper_length (h ++ [Plain ∅])) as Hl.
        rewrite length_app in Hl. cbn [length] in Hl. lia. }
      destruct (lookup_lt_is_Some_2 _ _ Hlt) as [o Ho].
      rewrite (lookup_app_l_Some _ _ _ _ Ho). rewrite Ho in Hr. exact Hr.
    - apply lookup_app_l_Some, Hth. }
  set (h3 := after_close g window (snd th)) in *.
  destruct (add_function_table function_names
              (<["GM_info" := VRef (length h3)]>
                 (<["unsafeWindow" := VRef unsafeWindow]> ∅))
              (h3 ++ [InfoObj (gmInfo sc code)]) function_names_NoDup)
    as (_ & _ & _ & C).
  apply C, lookup_app_l_Some, H3.
Qed.

(** The entries of [gmFunctions] whose value is an object that existed
    before the call. *)
Lemma old_table_values (info : nat) (h4 : heap) (n : nat) name i :
  (n <= info)%nat -> (n <= length h4)%nat -> (i < n)%nat ->
  fst (gmFunctions info h4) !! name = Some (VRef i) ->
  (name = "unsafeWindow" /\ i = unsafeWindow)
  \/ (name = "GM_xmlhttpRequest" /\ i = onRequestCreate)
  \/ (name = "GM_download" /\ i = onDownload).
Proof.
  intros Hinfo Hh4 Hi Ht. unfold gmFunctions in Ht.
  destruct (add_function_table function_names
              (<["GM_info" := VRef info]>
                 (<["unsafeWindow" := VRef unsafeWindow]> ∅))
              h4 function_names_NoDup) as (A & A' & B & _).
  destruct (decide (name ∈ function_names)) as [Hin|Hout].
  - destruct (decide (name ∈ imported_names)) as [Himp|Hnot].
    + rewrite (A' name Hin Himp) in Ht. injection Ht as Ht.
      unfold imported_names in Himp.
      rewrite !elem_of_cons, elem_of_nil in Himp.
      destruct Himp as [-> | [-> | []]]; cbn in Ht; auto.
    + destruct (A name Hin Hnot) as (f & F1 & _ & F3).
      rewrite F1 in Ht. injection Ht as ->. lia.
  - rewrite (B name Hout) in Ht.
    destruct (decide (name = "GM_info")) as [->|H1].
    { rewrite lookup_insert_eq in Ht. injection Ht as ->. lia. }
    rewrite lookup_insert_ne in Ht by congruence.
    destruct (decide (name = "unsafeWindow")) as [->|H2].
    { rewrite lookup_insert_eq in Ht. injection Ht as ->. auto. }
    rewrite lookup_insert_ne in Ht by congruence. discriminate.
Qed.

Lemma imported_table_values (info : nat) (h4 : heap) :
  fst (gmFunctions info h4) !! "GM_xmlhttpRequest" = Some (VRef onRequestCreate)
  /\ fst (gmFunctions info h4) !! "GM_download" = Some (VRef onDownload).
Proof.
  unfold gmFunctions.
  destruct (add_function_table function_names
              (<["GM_info" := VRef info]>
                 (<["unsafeWindow" := VRef unsafeWindow]> ∅))
              h4 function_names_NoDup) as (_ & A' & _ & _).
  split.
  - apply (A' "GM_xmlhttpRequest");
      apply (bool_decide_unpack _); vm_compute; exact I.
  - apply (A' "GM_download");
      apply (bool_decide_unpack _); vm_compute; exact I.
Qed.

(** [X20] What a call of [wrapGM] does to the objects that existed before
    it.  The real global object, the earlier sandboxes and views, the
    info objects and the functions bound for a view are the same after the
    call; so is every other object that is neither the real global object
    nor one of the two imported functions.  The imported functions are
    shared by all sandboxes and are written to: when [GM_xmlhttpRequest]
    or [GM_download] is granted, the function's [toString] becomes the
    [propertyToString] of this call.  (The descriptor's grant list, which
    the call rewrites, is treated with the descriptor; the members of
    [Object.prototype] are not objects of the heap.) *)
Theorem wrapGM_keeps_old_objects (sc : script) (code : string) (h : heap)
    (i : nat) (x : obj) :
  h !! i = Some x ->
  let effective :=
    default [] (grant (script_meta sc)) ++ ["unsafeWindow"; "GM_info"] in
  let h' := snd (wrapGM sc code h) in
  (unlabelled x -> h' !! i = Some x) /\
  (i <> unsafeWindow -> i <> onRequestCreate -> i <> onDownload ->
     h' !! i = Some x) /\
  (i = onRequestCreate -> "GM_xmlhttpRequest" ∈ effective ->
     h' !! i = Some (relabel (length h) x)) /\
  (i = onDownload -> "GM_download" ∈ effective ->
     h' !! i = Some (relabel (length h) x)).
Proof.
  intros Hx. pose proof (lookup_lt_Some _ _ _ Hx) as Hi.
  pose proof (before_grants sc code h i x Hx) as H5.
  cbv zeta in H5 |- *. rewrite wrapGM_parts. cbv zeta. cbn [snd].
  set (g := default [] (grant (script_meta sc))) in *.
  destruct (this_and_heap g h) as [_ Hl2]. cbv zeta in Hl2.
  set (th := if no_grant g then (length h, h ++ [Plain ∅])
             else getWrapper (h ++ [Plain ∅])) in *.
  set (window := if no_grant g then unsafeWindow else fst th) in *.
  pose proof (after_close_length g window (snd th)) as Hl3.
  set (h3 := after_close g window (snd th)) in *.
  set (h4 := h3 ++ [InfoObj (gmInfo sc code)]) in *.
  assert (Hl4 : length h4 = S (length h3))
    by (subst h4; rewrite length_app; cbn [length]; lia).
  pose proof (old_table_values (length h3) h4 (length h)) as Hold.
  destruct (imported_table_values (length h3) h4) as [Hreq Hdl].
  set (tf := gmFunctions (length h3) h4) in *.
  rewrite list_lookup_insert_ne by lia.
  assert (Hgrant : forall name, name <> "none" ->
            name ∈ g ++ ["unsafeWindow"; "GM_info"] -> name ∈ normalised g)
    by (intros name Hn; apply normalised_elem; exact Hn).
  destruct (foldl_label_lookup (length h) (fst tf) (normalised g) (snd tf) i)
    as [[E Hno] | [E (name & Hin & Hn)]]; rewrite E, H5; cbn [fmap option_fmap option_map].
  - split_and!; try reflexivity.
    + intros -> Hg. exfalso. apply (Hno "GM_xmlhttpRequest");
        [apply Hgrant; [discriminate | exact Hg] | exact Hreq].
    + intros -> Hg. exfalso. apply (Hno "GM_download");
        [apply Hgrant; [discriminate | exact Hg] | exact Hdl].
  - split_and!; try reflexivity.
    + intros Hu. rewrite relabel_unlabelled by exact Hu. reflexivity.
    + intros H1 H2 H3. exfalso.
      destruct (Hold name i) as [[_ ?] | [[_ ?] | [_ ?]]];
        [lia | lia | exact Hi | exact Hn | contradiction..].
Qed.


(** [X22] Every granted capability is a property of the GM object that cannot be
    overwritten.  [unsafeWindow] is the real global object and [GM_info]
    the info object built for this script.  [GM_xmlhttpRequest] and
    [GM_download] are the two imported functions, the same objects in
    every sandbox.  Every other capability is a function object made by
    this call, whose [toString] is the [propertyToString] of this call. *)
Theorem capability_bindings_are_fixed (sc : script) (code : string)
    (h : heap) (name : string) :
  name ∈ default [] (grant (script_meta sc)) ++ ["unsafeWindow"; "GM_info"] ->
  name ∈ known_names ->
  let '(_, r, h') := wrapGM sc code h in
  exists v,
    props_of (wrapper r) h' !! name = Some (Fixed v) /\
    (forall v', set_prop (wrapper r) name v' h' = h') /\
    (name = "unsafeWindow" -> v = VRef unsafeWindow) /\
    (name = "GM_info" ->
       exists i, v = VRef i /\ h' !! i = Some (InfoObj (gmInfo sc code))) /\
    (name = "GM_xmlhttpRequest" -> v = VRef onRequestCreate) /\
    (name = "GM_download" -> v = VRef onDownload) /\
    (name ∈ function_names -> name ∉ imported_names ->
       exists f, v = VRef f /\ h !! f = None /\
                 h' !! f = Some (CapabilityFn name (Some (wrapper r)))).
Proof.
  intros Hin Hk. rewrite wrapGM_parts. cbv zeta. cbn [wrapper].
  set (g := default [] (grant (script_meta sc))) in *.
  destruct (this_and_heap g h) as [_ Hl2]. cbv zeta in Hl2.
  set (th := if no_grant g then (length h, h ++ [Plain ∅])
             else getWrapper (h ++ [Plain ∅])) in *.
  set (window := if no_grant g then unsafeWindow else fst th).
  pose proof (after_close_length g window (snd th)) as Hl3.
  set (h3 := after_close g window (snd th)) in *.
  destruct (imported_table_values (length h3)
              (h3 ++ [InfoObj (gmInfo sc code)])) as [Hreq Hdl].
  unfold gmFunctions in *.
  set (t0 := <["GM_info" := VRef (length h3)]>
               (<["unsafeWindow" := VRef unsafeWindow]> ∅)) in *.
  set (h4 := h3 ++ [InfoObj (gmInfo sc code)]) in *.
  destruct (add_function_table function_names t0 h4 function_names_NoDup)
    as (A & A' & B & C).
  pose proof (add_function_spec function_names t0 h4) as [Hl5 _].
  cbv zeta in Hl5.
  set (tf := foldl add_function (t0, h4) function_names) in *.
  assert (Hl4 : length h4 = S (length h3))
    by (subst h4; rewrite length_app; cbn [length]; lia).
  destruct reserved_not_known as [_ Hnone].
  assert (Hn : name ∈ normalised g).
  { apply normalised_elem; [| exact Hin]. intros ->. contradiction. }
  assert (Hcases : name = "unsafeWindow" \/ name = "GM_info"
                   \/ name ∈ function_names).
  { unfold known_names in Hk. rewrite !elem_of_cons in Hk. exact Hk. }
  assert (Hu : "unsafeWindow" ∉ function_names)
    by (apply (bool_decide_unpack _); vm_compute; exact I).
  assert (Hi : "GM_info" ∉ function_names)
    by (apply (bool_decide_unpack _); vm_compute; exact I).
  assert (Himp : forall n, n ∈ imported_names -> n ∈ function_names)
    by (intros n; unfold imported_names;
        rewrite !elem_of_cons, elem_of_nil;
        intros [-> | [-> | []]]; apply (bool_decide_unpack _);
        vm_compute; exact I).
  assert (Hv : exists v, fst tf !! name = Some v /\
             (name = "unsafeWindow" -> v = VRef unsafeWindow) /\
             (name = "GM_info" -> v = VRef (length h3)) /\
             (name = "GM_xmlhttpRequest" -> v = VRef onRequestCreate) /\
             (name = "GM_download" -> v = VRef onDownload) /\
             (name ∈ function_names -> name ∉ imported_names ->
                exists f, v = VRef f /\ snd tf !! f = Some (CapabilityFn name None) /\
                          (length h4 <= f)%nat)).
  { destruct Hcases as [-> | [-> | Hf]].
    - exists (VRef unsafeWindow). rewrite (B _ Hu). subst t0.
      rewrite lookup_insert_ne by discriminate. rewrite lookup_insert_eq.
      split_and!; [done | done | discriminate | discriminate | discriminate
                  | intros ?; contradiction].
    - exists (VRef (length h3)). rewrite (B _ Hi). subst t0.
      rewrite lookup_insert_eq.
      split_and!; [done | discriminate | done | discriminate | discriminate
                  | intros ?; contradiction].
    - destruct (decide (name ∈ imported_names)) as [Hyes|Hnot].
      + eexists. split; [apply (A' name Hf Hyes) |].
        split_and!.
        * intros ->. contradiction.
        * intros ->. contradiction.
        * intros ->. reflexivity.
        * intros ->. reflexivity.
        * intros _ ?. contradiction.
      + destruct (A name Hf Hnot) as (f & F1 & F2 & F3). exists (VRef f).
        split_and!; [done | | | | | eauto].
        * intros ->. contradiction.
        * intros ->. contradiction.
        * intros ->. exfalso. apply Hnot. apply elem_of_cons. auto.
        * intros ->. exfalso. apply Hnot. apply elem_of_cons. right.
          apply elem_of_cons. auto. }
  destruct Hv as (v & Hv & V1 & V2 & V3 & V4 & V5).
  exists v.
  set (h6 := foldl (label (length h) (fst tf)) (snd tf) (normalised g)).
  assert (Hl6 : length h6 = length (snd tf))
    by (subst h6; apply foldl_label_length).
  assert (Hp : props_of (length h)
                 (<[length h :=
                      Plain (foldl (define (fst tf))
                               (<["window" := Data (VRef window)]> ∅)
                               (normalised g))]> h6) !! name
               = Some (Fixed v)).
  { rewrite props_of_insert by lia. apply define_fixed; assumption. }
  split; [exact Hp |]. split.
  { intros v'. unfold set_prop. rewrite Hp. reflexivity. }
  split; [exact V1 |]. split; [| split; [exact V3 | split; [exact V4 |]]].
  - intros Hg. exists (length h3). split; [apply V2, Hg |].
    rewrite list_lookup_insert_ne by lia.
    subst h6. apply foldl_label_keeps; [| exact I].
    apply C. subst h4. apply list_lookup_middle. reflexivity.
  - intros Hf Hnot. destruct (V5 Hf Hnot) as (f & -> & F2 & F3). exists f.
    split; [reflexivity |]. split; [apply lookup_ge_None; lia |].
    rewrite list_lookup_insert_ne by lia. subst h6.
    destruct (foldl_label_lookup (length h) (fst tf) (normalised g) (snd tf) f)
      as [[E Hno] | [E _]].
    + exfalso. exact (Hno name Hn Hv).
    + rewrite E, F2. reflexivity.
Qed.

Lemma wrap_property_fixed names : forall w n v,
  foldl wrap_property w names !! n = Some (Fixed v) -> w !! n = Some (Fixed v).
Proof.
  induction names as [|m names IH]; intros w n v Hn; cbn [foldl] in Hn;
    [exact Hn |].
  apply IH in Hn. unfold wrap_property in Hn.
  destruct (decide (is_Some (w !! m))); [exact Hn |].
  destruct (inherited m); [exact Hn |].
  destruct (String.eqb _ _); destruct (decide (n = m)) as [->|Hne];
    rewrite ?lookup_insert_eq in Hn; try discriminate;
    rewrite lookup_insert_ne in Hn by congruence; exact Hn.
Qed.

Lemma view_close_kind (h : heap) :
  exists ps, snd (getWrapper h) !! length h = Some (Plain ps) /\
    (ps !! "close" = None \/ (exists v, ps !! "close" = Some (Data v)) \/
     (exists m v, ps !! "close" = Some (Protected m v))).
Proof.
  pose proof (view_close_not_reacted h) as Hr.
  rewrite getWrapper_unfold in *. cbn [snd] in *.
  destruct (fixed_part_facts h) as (Hd & Hl & _).
  rewrite props_of_insert in Hr by lia.
  eexists. split; [apply list_lookup_insert_eq; lia |].
  destruct (foldl wrap_property _ _ !! "close") as [[v|v|m v|]|] eqn:E; eauto.
  - apply wrap_property_fixed in E. destruct (Hd _ _ E) as [? ?]. discriminate.
  - contradiction.
Qed.

(** [X23] [window.close]: when it is granted, [close] read through the view is
    a function object made by this call that posts [TabClose]; when it is
    not granted, the view is exactly what [getWrapper] built. *)
Theorem window_close_override (sc : script) (code : string) (h : heap) :
  (unsafeWindow < length h)%nat ->
  let g := default [] (grant (script_meta sc)) in
  let '(_, r, h') := wrapGM sc code h in
  ("window.close" ∈ g ->
     exists f, fst (get_prop (thisObj r) "close" h') = VRef f /\
               h' !! f = Some TabCloseFn /\ h !! f = None) /\
  (("window.close" ∉ g) -> no_grant g = false ->
     h' !! thisObj r
     = snd (getWrapper (h ++ [Plain ∅])) !! fst (getWrapper (h ++ [Plain ∅]))).
Proof.
  intros Hw. cbv zeta. rewrite wrapGM_parts. cbv zeta. cbn [thisObj].
  set (g := default [] (grant (script_meta sc))).
  destruct (this_and_heap g h) as [Hf Hl2]. cbv zeta in Hf, Hl2.
  set (th := if no_grant g then (length h, h ++ [Plain ∅])
             else getWrapper (h ++ [Plain ∅])) in *.
  set (window := if no_grant g then unsafeWindow else fst th).
  pose proof (after_close_length g window (snd th)) as Hl3.
  set (h3 := after_close g window (snd th)) in *.
  unfold gmFunctions.
  set (t0 := <["GM_info" := VRef (length h3)]>
               (<["unsafeWindow" := VRef unsafeWindow]> ∅)).
  set (h4 := h3 ++ [InfoObj (gmInfo sc code)]).
  destruct (add_function_table function_names t0 h4 function_names_NoDup)
    as (_ & _ & _ & C0).
  set (tf := foldl add_function (t0, h4) function_names) in *.
  set (h6 := foldl (label (length h) (fst tf)) (snd tf) (normalised g)).
  assert (C : forall i x, h4 !! i = Some x -> unlabelled x ->
                          h6 !! i = Some x).
  { intros i x Hi Hu. subst h6. apply foldl_label_keeps; [| exact Hu].
    apply C0, Hi. }
  assert (Hinc : includes (normalised g) "window.close" = true
                 <-> "window.close" ∈ g).
  { unfold includes. rewrite bool_decide_eq_true.
    rewrite normalised_elem by discriminate.
    rewrite elem_of_app, !elem_of_cons, elem_of_nil.
    split; [intros [?|[?|[?|[]]]]; [assumption | discriminate..] | auto]. }
  split.
  - intros Hin.
    assert (Hng : no_grant g = false).
    { destruct g as [|a [|b g']]; [apply elem_of_nil in Hin; contradiction | |
                                   reflexivity].
      apply list_elem_of_singleton in Hin as <-. reflexivity. }
    assert (Hth : th = getWrapper (h ++ [Plain ∅]))
      by (subst th; rewrite Hng; reflexivity).
    rewrite Hng in Hf.
    destruct (view_close_kind (h ++ [Plain ∅])) as (ps & Hps & Hkind).
    rewrite <- Hth in Hps.
    rewrite length_app in Hps. cbn [length] in Hps.
    replace (length h + 1)%nat with (S (length h)) in Hps by lia.
    assert (Hwin : window = S (length h))
      by (subst window; rewrite Hng; exact Hf).
    set (f := length (snd th)).
    assert (Hlt : (S (length h) < f)%nat)
      by (subst f; apply lookup_lt_Some in Hps; exact Hps).
    assert (Hpo : props_of (S (length h)) (snd th ++ [TabCloseFn]) = ps).
    { unfold props_of. rewrite (lookup_app_l_Some _ _ _ _ Hps). reflexivity. }
    assert (H3 : exists p, h3 = <[S (length h) := Plain (<["close" := p]> ps)]>
                                 (snd th ++ [TabCloseFn]) /\
                           (p = Data (VRef f) \/ p = Protected true (VRef f))).
    { subst h3. unfold after_close.
      rewrite (proj2 Hinc Hin), Hwin. unfold set_prop. rewrite Hpo. fold f.
      destruct Hkind as [-> | [[v ->] | (m & v & ->)]]; eauto. }
    destruct H3 as (p & E3 & Hp).
    assert (Hview : h6 !! S (length h) = Some (Plain (<["close" := p]> ps))).
    { apply C; [| exact I]. subst h4. apply lookup_app_l_Some. rewrite E3.
      apply list_lookup_insert_eq. rewrite length_app. cbn [length]. lia. }
    assert (Hfn : h6 !! f = Some TabCloseFn).
    { apply C; [| exact I]. subst h4. apply lookup_app_l_Some. rewrite E3.
      rewrite list_lookup_insert_ne by lia.
      apply list_lookup_middle. reflexivity. }
    exists f. rewrite Hf. split; [| split].
    + unfold get_prop, props_of.
      rewrite list_lookup_insert_ne by lia. rewrite Hview, lookup_insert_eq.
      destruct Hp as [-> | ->]; cbn [fst]; [reflexivity |].
      unfold rewrap. rewrite decide_False; [reflexivity |].
      intros [= E]. lia.
    + rewrite list_lookup_insert_ne by lia. exact Hfn.
    + apply lookup_ge_None. lia.
  - intros Hout Hng.
    assert (Hth : th = getWrapper (h ++ [Plain ∅]))
      by (subst th; rewrite Hng; reflexivity).
    rewrite Hng in Hf.
    assert (E3 : h3 = snd th).
    { subst h3. unfold after_close.
      destruct (includes (normalised g) "window.close") eqn:Ei; [| reflexivity].
      exfalso. apply Hout, Hinc. reflexivity. }
    rewrite <- Hth.
    destruct (getWrapper_plain (h ++ [Plain ∅])) as [ps Hps].
    rewrite <- Hth in Hps. rewrite Hps.
    rewrite list_lookup_insert_ne by lia.
    apply C; [| exact I]. subst h4. apply lookup_app_l_Some.
    rewrite E3. exact Hps.
Qed.

End SandboxMore.

(** ** More on the scheduler *)

Section SchedulerMore.
Import Sandbox Scheduler.
Context `{Host}.

Lemma of_phase_partition (scripts : list script) :
  all_listed scripts ->
  of_phase Start scripts ++ of_phase End_ scripts ++ of_phase Idle scripts
  ≡ₚ scripts.
Proof.
  unfold of_phase. induction scripts as [|sc scripts IH]; intros Hall;
    [reflexivity |].
  apply Forall_cons in Hall as [[p Hp] Hall]. specialize (IH Hall).
  rewrite !filter_cons, Hp. destruct p;
    repeat (destruct (decide _) as [?|?]; try congruence); cbn [app].
  - constructor. exact IH.
  - rewrite app_assoc, <- Permutation_middle, <- app_assoc.
    constructor. exact IH.
  - rewrite <- Permutation_middle. constructor. exact IH.
Qed.

(** [X24] Whatever the arrays of the scripts of a [LoadScripts] message, as
    long as no run-at value is the name of a member of [Object.prototype]:
    once the idle timer has fired every script has been handed to the host
    exactly once, the ids injected being a rearrangement of the ids
    loaded.  This holds on both routes, document ready or not. *)
Theorem every_script_injected_once (v : string)
    (vals : gmap Z (gmap string Values.raw)) (scripts : list script) :
  all_listed scripts ->
  let ready := onLoadScripts v (Some scripts) vals true init in
  let early := onLoadScripts v (Some scripts) vals false init in
  injected (onTimer ready) ≡ₚ map props_id scripts /\
  injected (onTimer (onDOMContentLoaded early)) ≡ₚ map props_id scripts.
Proof.
  intros Hall.
  destruct (phase_order_general v vals scripts Hall)
    as (_ & _ & G & _ & _ & _ & _ & _ & E & _).
  cbv zeta in *. rewrite E, G, <- !map_app.
  split; apply Permutation_map, of_phase_partition, Hall.
Qed.

Lemma run_from_values l : forall env p s,
  values (run_from l env p s) = values s.
Proof.
  induction l as [|sc rest IH]; intros env p s; cbn [run_from];
    [reflexivity |].
  rewrite IH. reflexivity.
Qed.

Lemma bridge_load_values env s : values (bridge_load env s) = values s.
Proof. unfold bridge_load, run. cbn. apply run_from_values. Qed.

Lemma enlist_values vals env scripts : forall s id,
  values (foldl (enlist_listed vals env) s scripts) !! id =
  if decide (id ∈ map props_id scripts) then vals !! id else values s !! id.
Proof.
  induction scripts as [|sc scripts IH]; intros s id; cbn [foldl map].
  - rewrite decide_False by apply not_elem_of_nil. reflexivity.
  - rewrite IH. destruct (decide (id ∈ map props_id scripts)) as [Hin|Hout].
    + rewrite decide_True by (apply elem_of_cons; auto). reflexivity.
    + destruct (decide (id = props_id sc)) as [->|Hne].
      * rewrite decide_True by (apply elem_of_cons; auto).
        unfold enlist_listed, push_script. cbn [values set_envs].
        destruct (vals !! props_id sc) eqn:E.
        -- apply lookup_insert_eq.
        -- apply lookup_delete_eq.
      * rewrite decide_False
          by (intros Hc; apply elem_of_cons in Hc as [?|?]; contradiction).
        unfold enlist_listed, push_script. cbn [values set_envs].
        destruct (vals !! props_id sc).
        -- apply lookup_insert_ne. congruence.
        -- apply lookup_delete_ne. congruence.
Qed.

Lemma run_from_exposed l : forall env p s,
  exposed (run_from l env p s) = exposed s.
Proof.
  induction l as [|sc rest IH]; intros env p s; cbn [run_from];
    [reflexivity |].
  rewrite IH. reflexivity.
Qed.

Lemma bridge_load_exposed env s : exposed (bridge_load env s) = exposed s.
Proof. unfold bridge_load, run. cbn. apply run_from_exposed. Qed.

Lemma enlist_listed_exposed vals env scripts : forall s,
  exposed (foldl (enlist_listed vals env) s scripts) = exposed s.
Proof.
  induction scripts as [|sc scripts IH]; intros s; cbn [foldl];
    [reflexivity |].
  rewrite IH. reflexivity.
Qed.

(** [X25] The first [LoadScripts] message of a page, whose scripts have no
    run-at value that is the name of a member of [Object.prototype]: the
    cache entry of each script of the message is what the host sent for
    its id, so it is missing exactly when the host sent none, and the
    entries of other scripts are as before.  A later [LoadScripts] message
    finds [window.external.AceScript] defined: the call throws after the
    version has been stored, and no cache entry changes. *)
Theorem load_sets_value_caches (v : string)
    (vals : gmap Z (gmap string Values.raw)) (scripts : list script)
    (ready : bool) (s : sched) (id : Z) :
  let o := onLoadScripts_outcome v (Some scripts) vals ready s in
  let s' := onLoadScripts v (Some scripts) vals ready s in
  (exposed s = false -> all_listed scripts ->
     threw o = false /\ exposed s' = true /\
     (id ∈ map props_id scripts -> values s' !! id = vals !! id) /\
     (id ∉ map props_id scripts -> values s' !! id = values s !! id)) /\
  (exposed s = true -> o = Threw (set_version v s) /\ values s' = values s).
Proof.
  cbv zeta. split.
  - intros Hexp Hall.
    unfold onLoadScripts, onLoadScripts_outcome. cbv zeta.
    set (sv := set_version v s).
    assert (Hsv : exposed sv = false) by exact Hexp.
    rewrite Hsv. rewrite forEach_enlist_listed by exact Hall.
    cbn [state_of threw].
    set (env := length (envs sv)).
    set (s0 := Sched _ _ _ _ _ _ _ _ _ _ _ _).
    set (s1 := run env Start _).
    assert (V1 : values s1 = values (foldl (enlist_listed vals env) s0 scripts))
      by (subst s1; unfold run; apply run_from_values).
    assert (X1 : exposed s1 = true).
    { subst s1. unfold run. rewrite run_from_exposed, enlist_listed_exposed.
      reflexivity. }
    set (s2 := if negb (state s1) && ready then set_state true s1 else s1).
    assert (V2 : values s2 = values s1 /\ exposed s2 = true)
      by (subst s2; destruct (negb (state s1) && ready); auto).
    destruct V2 as [V2 X2].
    assert (V3 : values (if state s2 then bridge_load env s2 else s2)
                 = values s2)
      by (destruct (state s2); [apply bridge_load_values | reflexivity]).
    assert (X3 : exposed (if state s2 then bridge_load env s2 else s2) = true)
      by (destruct (state s2); [rewrite bridge_load_exposed |]; exact X2).
    split; [reflexivity |]. split; [exact X3 |].
    rewrite V3, V2, V1, enlist_values. split; intros Hid.
    + rewrite decide_True by exact Hid. reflexivity.
    + rewrite decide_False by exact Hid. reflexivity.
  - intros Hexp. unfold onLoadScripts, onLoadScripts_outcome. cbv zeta.
    assert (Hsv : exposed (set_version v s) = true) by exact Hexp.
    rewrite Hsv. split; reflexivity.
Qed.

(** [X26] When [DOMContentLoaded] has fired before the scripts arrive, and no
    run-at value is the name of a member of [Object.prototype], the
    [LoadScripts] turn runs the start and the end arrays at once, whatever
    [document.readyState] says, and leaves the idle array to the timer. *)
Theorem load_after_DOMContentLoaded (v : string)
    (vals : gmap Z (gmap string Values.raw)) (scripts : list script)
    (ready : bool) :
  all_listed scripts ->
  let ids p := map props_id (of_phase p scripts) in
  let s := onLoadScripts v (Some scripts) vals ready
             (onDOMContentLoaded init) in
  injected (onDOMContentLoaded init) = [] /\
  injected s = ids Start ++ ids End_ /\
  timers s = [0%nat] /\
  injected (onTimer s) = ids Start ++ ids End_ ++ ids Idle.
Proof.
  intros Hall. cbv zeta. split; [reflexivity |].
  destruct (after_start_any true v vals scripts Hall) as (Hi & Ha & Hc).
  cbv zeta in Hi, Ha, Hc.
  set (s1 := run 0 Start _) in *.
  destruct Hc as (C1 & C2 & C3 & C4 & C5 & C6). cbn in C1, C2, C3, C4.
  assert (E : onLoadScripts v (Some scripts) vals ready (onDOMContentLoaded init)
              = bridge_load 0 s1).
  { unfold onLoadScripts, onLoadScripts_outcome, onDOMContentLoaded.
    cbn [init set_state set_version load envs
      length app state timers version values draws attached posted console
      executed exposed].
    rewrite forEach_enlist_listed by exact Hall.
    fold (loading true v). fold s1. cbn [state_of].
    rewrite C1. cbn [negb andb]. rewrite C1. reflexivity. }
  rewrite E.
  destruct (load_then_timer s1 (map props_id (of_phase Start scripts))
              (of_phase Idle scripts) (of_phase End_ scripts))
    as (L1 & L2 & _ & L4 & _).
  { rewrite C4. lia. }
  { exact Hi. }
  { exact Ha. }
  { exact C2. }
  auto.
Qed.

(** [X27] A body that throws a value for which the report can be built, that
    is, one that has a string form and whose [message], when truthy, has
    one too: the exception does not leave the turn, exactly one error is
    reported and its text is the fixed prefix, the script's name, a newline
    and the string form of the thrown value, followed by a newline and the
    message when the value has a truthy one; arrays, timers and attached
    functions are untouched, and the next attached function that is called
    applies its body.  ([null], [undefined], and the values that cannot be
    converted to a string are the other two cases of [thrown].) *)
Theorem thrown_value_is_reported_once (fnId id name text : string)
    (message : option string) (s : sched)
    (fnId' id' name' : string) (body' : option thrown) :
  attached s !! fnId = Some (id, name) ->
  attached s !! fnId' = Some (id', name') ->
  let o := onInjected fnId true (Some (ThrownValue text message)) s in
  let o' := onInjected fnId' true body' (state_of o) in
  threw o = false /\
  errors (state_of o)
  = errors s ++ ["Error running script: " +:+ name +:+ newline +:+ text
                 +:+ match message with
                     | Some m => newline +:+ m
                     | None => EmptyString
                     end] /\
  same_schedule s (state_of o) /\
  executed (state_of o') = executed s ++ [name; name'].
Proof.
  intros Hf Hf'.
  destruct (failure_does_not_stop_the_queue fnId id name text message s
              fnId' id' name' body' Hf Hf') as (A & _ & C & D).
  cbv zeta in *. split; [exact A |]. split; [| split; [exact C | exact D]].
  unfold onInjected. rewrite Hf. unfold runCode, errors.
  assert (Hnil : forall a : string, a +:+ EmptyString = a).
  { induction a as [|c a IH]; [reflexivity |].
    change (String c (a +:+ EmptyString) = String c a). f_equal. exact IH. }
  destruct DEBUG, message as [m|]; cbn [state_of set_console console];
    rewrite !omap_app; cbn [omap list_omap app];
    rewrite ?app_nil_r, ?string_append_assoc, ?Hnil; reflexivity.
Qed.

End SchedulerMore.

(** ** Instances *)

(** A codec in which [None] has no JSON text. *)
Definition strict_codec : Codec :=
  {| json := option bool;
     number := Z;
     jsonDump := fun v =>
       match v with
       | None => None
       | Some true => Some "true"
       | Some false => Some "false"
       end;
     jsonLoad := fun t =>
       if String.eqb t "true" then Some (Some true)
       else if String.eqb t "false" then Some (Some false)
       else None;
     Number := fun _ => 0 |}.

Definition demo_values : Values.store :=
  Values.Store
    (<[7 := <["seen" := Values.RawText "otrue"]> ∅]> (<[8 := ∅]> ∅)) ∅ [].

Lemma delete_then_get_witness :
  exists s' l,
    @Values.GM_deleteValue 7 "seen" demo_values = Some s' /\
    @Values.GM_getValue strict_codec 7 "seen" (@Values.Undefined strict_codec) s'
      = Some (@Values.Undefined strict_codec) /\
    @Values.GM_listValues 7 s' = Some l /\ ("seen" ∉ l) /\
    Values.posted s'
    = Values.posted demo_values ++ [Values.UpdateValue 7 "seen" None].
Proof.
  apply (@delete_then_get strict_codec 7 "seen"
           (@Values.Undefined strict_codec) demo_values).
  - vm_compute. eauto.
  - vm_compute. reflexivity.
Defined.

Lemma values_isolated_witness :
  let s' := default demo_values
              (@Values.GM_setValue strict_codec 7 "k" (Some true) demo_values) in
  @Values.GM_getValue strict_codec 8 "k" (@Values.Undefined strict_codec) s'
  = @Values.GM_getValue strict_codec 8 "k" (@Values.Undefined strict_codec)
      demo_values /\
  Values.GM_listValues 8 s' = Values.GM_listValues 8 demo_values.
Proof.
  apply (@values_isolated strict_codec 7 8 "k" "k" (Some true)
           (@Values.Undefined strict_codec) demo_values
           (default demo_values
              (@Values.GM_setValue strict_codec 7 "k" (Some true) demo_values))).
  - discriminate.
  - left. vm_compute. reflexivity.
Defined.

Lemma writes_frame_other_keys_witness :
  let s' := default demo_values
              (@Values.GM_setValue strict_codec 7 "k" (Some true) demo_values) in
  @Values.GM_getValue strict_codec 7 "seen" (@Values.Undefined strict_codec) s'
  = @Values.GM_getValue strict_codec 7 "seen" (@Values.Undefined strict_codec)
      demo_values.
Proof.
  apply (@writes_frame_other_keys strict_codec 7 "k" "seen" (Some true)
           (@Values.Undefined strict_codec) demo_values
           (default demo_values
              (@Values.GM_setValue strict_codec 7 "k" (Some true) demo_values))).
  - discriminate.
  - left. split; [discriminate | vm_compute; reflexivity].
Defined.

Lemma unserializable_reads_default_witness :
  exists s' l,
    @Values.GM_setValue strict_codec 7 "k" None demo_values = Some s' /\
    @Values.GM_getValue strict_codec 7 "k" (@Values.FromBool strict_codec true) s'
      = Some (@Values.FromBool strict_codec true) /\
    Values.GM_listValues 7 s' = Some l /\ ("k" ∈ l) /\
    Values.posted s'
    = Values.posted demo_values
      ++ [Values.UpdateValue 7 "k" (Some Values.RawNull)].
Proof.
  apply (@unserializable_reads_default strict_codec 7 "k" None
           (@Values.FromBool strict_codec true) demo_values).
  - vm_compute. eauto.
  - discriminate.
  - left. reflexivity.
Defined.

Lemma get_decodes_or_falls_back_witness :
  @Values.GM_getValue strict_codec 7 "other" (@Values.Undefined strict_codec)
    demo_values
  = Some (@Values.Undefined strict_codec).
Proof.
  destruct (@get_decodes_or_falls_back strict_codec 7 "other"
              (@Values.Undefined strict_codec) demo_values
              (<["seen" := Values.RawText "otrue"]> ∅)) as [G _].
  - vm_compute. reflexivity.
  - apply G. left. split; vm_compute; reflexivity.
Defined.

Lemma last_write_wins_witness :
  exists s1 s2,
    @Values.GM_setValue strict_codec 7 "k" None demo_values = Some s1 /\
    @Values.GM_setValue strict_codec 7 "k" (Some false) s1 = Some s2 /\
    @Values.GM_getValue strict_codec 7 "k" (@Values.Undefined strict_codec) s2
    = Some (@Values.FromJson strict_codec (Some false)).
Proof.
  apply (@last_write_wins strict_codec 7 "k" None (Some false)
           (@Values.Undefined strict_codec) demo_values).
  - vm_compute. eauto.
  - discriminate.
  - exists "false". repeat split. discriminate.
Defined.

Lemma UpdatedValues_replaces_known_only_witness :
  let s' := Values.handlers_UpdatedValues
              [(7, ∅); (9, <["x" := Values.RawNull]> ∅)] demo_values in
  Values.posted s' = Values.posted demo_values /\
  (Values.values demo_values !! 9 = None -> Values.values s' !! 9 = None) /\
  (forall m, (9, m) ∈ [(7, ∅); (9, <["x" := Values.RawNull]> ∅)] ->
             is_Some (Values.values demo_values !! 9) ->
             Values.values s' !! 9 = Some m) /\
  (9 ∉ [(7, ∅ : gmap string Values.raw); (9, <["x" := Values.RawNull]> ∅)].*1 ->
   Values.values s' !! 9 = Values.values demo_values !! 9).
Proof.
  apply (UpdatedValues_replaces_known_only
           [(7, ∅); (9, <["x" := Values.RawNull]> ∅)] demo_values 9).
  apply (bool_decide_unpack _). vm_compute. exact I.
Defined.

Lemma view_blocks_browser_witness :
  let '(view, h') := @Sandbox.getWrapper demo_page demo_heap in
  @Sandbox.observe demo_page view "browser"
    [Sandbox.Read; Sandbox.PageWrite (VNum 1); Sandbox.Read] h'
  = stored_reads [Sandbox.Read; Sandbox.PageWrite (VNum 1); Sandbox.Read]
      VUndefined.
Proof.
  apply (@view_blocks_browser demo_page demo_heap
           (<["name" := Sandbox.Data (VStr "first")]>
              (<["self" := Sandbox.Data (VRef 0)]>
                 (<["onload" := Sandbox.Data VNull]> ∅)))
           [Sandbox.Read; Sandbox.PageWrite (VNum 1); Sandbox.Read]).
  reflexivity.
Defined.

Lemma view_copies_eval_witness :
  let '(view, h') := @Sandbox.getWrapper demo_page demo_heap in
  @Sandbox.observe demo_page view "eval"
    [Sandbox.Read; Sandbox.PageWrite (VNum 1); Sandbox.Read] h'
  = stored_reads [Sandbox.Read; Sandbox.PageWrite (VNum 1); Sandbox.Read]
      (@Sandbox.global_get demo_page "eval" demo_heap).
Proof.
  apply (@view_copies_eval demo_page demo_heap
           (<["name" := Sandbox.Data (VStr "first")]>
              (<["self" := Sandbox.Data (VRef 0)]>
                 (<["onload" := Sandbox.Data VNull]> ∅)))
           [Sandbox.Read; Sandbox.PageWrite (VNum 1); Sandbox.Read]).
  reflexivity.
Defined.

(** A page whose global object has an [alert] method. *)
Definition alert_heap : list Sandbox.obj :=
  [Sandbox.Plain (<["alert" := Sandbox.Data (VRef 3)]> ∅);
   Sandbox.ImportedFn "onRequestCreate" None;
   Sandbox.ImportedFn "onDownload" None;
   Sandbox.TabCloseFn].

Lemma view_binds_methods_witness :
  let '(view, h') := @Sandbox.getWrapper demo_page alert_heap in
  (truthy (@Sandbox.global_get demo_page "alert" alert_heap) = true ->
     exists f, alert_heap !! f = None /\
               h' !! f = Some (Sandbox.BoundFn
                                 (@Sandbox.global_get demo_page "alert" alert_heap)) /\
               @Sandbox.observe demo_page view "alert"
                 [Sandbox.Read; Sandbox.PageWrite VNull; Sandbox.Read] h'
               = stored_reads
                   [Sandbox.Read; Sandbox.PageWrite VNull; Sandbox.Read] (VRef f)) /\
  (truthy (@Sandbox.global_get demo_page "alert" alert_heap) = false ->
   "alert" ∉ @bridge_props demo_page ->
   Sandbox.props_of view h' !! "alert" = None).
Proof.
  apply (@view_binds_methods demo_page alert_heap
           (<["alert" := Sandbox.Data (VRef 3)]> ∅) "alert"
           [Sandbox.Read; Sandbox.PageWrite VNull; Sandbox.Read]).
  - reflexivity.
  - apply (bool_decide_unpack _). vm_compute. exact I.
Defined.

Lemma wrapGM_keeps_old_objects_witness :
  let sc := demo_script (Some ["GM_xmlhttpRequest"]) in
  let x := Sandbox.ImportedFn "onRequestCreate" None in
  let effective :=
    default [] (Sandbox.grant (Sandbox.script_meta sc))
    ++ ["unsafeWindow"; "GM_info"] in
  let h' := snd (@Sandbox.wrapGM demo_page sc EmptyString demo_heap) in
  (unlabelled x -> h' !! 1%nat = Some x) /\
  (1%nat <> @unsafeWindow demo_page -> 1%nat <> @onRequestCreate demo_page ->
   1%nat <> @onDownload demo_page -> h' !! 1%nat = Some x) /\
  (1%nat = @onRequestCreate demo_page -> "GM_xmlhttpRequest" ∈ effective ->
   h' !! 1%nat = Some (Sandbox.relabel (length demo_heap) x)) /\
  (1%nat = @onDownload demo_page -> "GM_download" ∈ effective ->
   h' !! 1%nat = Some (Sandbox.relabel (length demo_heap) x)).
Proof.
  apply (@wrapGM_keeps_old_objects demo_page
           (demo_script (Some ["GM_xmlhttpRequest"])) EmptyString
           demo_heap 1%nat (Sandbox.ImportedFn "onRequestCreate" None)).
  reflexivity.
Defined.

Lemma capability_bindings_are_fixed_witness :
  let '(_, r, h') :=
    @Sandbox.wrapGM demo_page (demo_script (Some ["GM_log"])) EmptyString
                    demo_heap in
  exists v,
    Sandbox.props_of (Sandbox.wrapper r) h' !! "GM_log" = Some (Sandbox.Fixed v) /\
    (forall v', @Sandbox.set_prop demo_page (Sandbox.wrapper r) "GM_log" v' h' = h') /\
    ("GM_log" = "unsafeWindow" -> v = VRef (@unsafeWindow demo_page)) /\
    ("GM_log" = "GM_info" ->
       exists i, v = VRef i /\
         h' !! i = Some (Sandbox.InfoObj
                           (@Sandbox.gmInfo demo_page
                              (demo_script (Some ["GM_log"])) EmptyString))) /\
    ("GM_log" = "GM_xmlhttpRequest" -> v = VRef (@onRequestCreate demo_page)) /\
    ("GM_log" = "GM_download" -> v = VRef (@onDownload demo_page)) /\
    ("GM_log" ∈ @Sandbox.function_names -> "GM_log" ∉ imported_names ->
       exists f, v = VRef f /\ demo_heap !! f = None /\
                 h' !! f = Some (Sandbox.CapabilityFn "GM_log"
                                   (Some (Sandbox.wrapper r)))).
Proof.
  apply (@capability_bindings_are_fixed demo_page
           (demo_script (Some ["GM_log"])) EmptyString demo_heap "GM_log").
  - apply (bool_decide_unpack _). vm_compute. exact I.
  - apply (bool_decide_unpack _). vm_compute. exact I.
Defined.

Lemma window_close_override_witness :
  let g := default [] (Sandbox.grant (Sandbox.script_meta
                         (demo_script (Some ["window.close"])))) in
  let '(_, r, h') :=
    @Sandbox.wrapGM demo_page (demo_script (Some ["window.close"])) EmptyString
                    demo_heap in
  ("window.close" ∈ g ->
     exists f, fst (@Sandbox.get_prop demo_page (Sandbox.thisObj r) "close" h')
               = VRef f /\
               h' !! f = Some Sandbox.TabCloseFn /\ demo_heap !! f = None) /\
  (("window.close" ∉ g) -> Sandbox.no_grant g = false ->
     h' !! Sandbox.thisObj r
     = snd (@Sandbox.getWrapper demo_page (demo_heap ++ [Sandbox.Plain ∅]))
       !! fst (@Sandbox.getWrapper demo_page (demo_heap ++ [Sandbox.Plain ∅]))).
Proof.
  apply (@window_close_override demo_page (demo_script (Some ["window.close"]))
           EmptyString demo_heap).
  simpl. lia.
Defined.

Lemma every_script_injected_once_witness :
  let scripts := [script_at 1 "document-idle"; script_at 2 "document-start";
                  script_at 3 "document-body"] in
  let ready := @Scheduler.onLoadScripts throwing_host "2.9.5" (Some scripts) ∅
                 true Scheduler.init in
  let early := @Scheduler.onLoadScripts throwing_host "2.9.5" (Some scripts) ∅
                 false Scheduler.init in
  Scheduler.injected (@Scheduler.onTimer throwing_host ready)
    ≡ₚ map Sandbox.props_id scripts /\
  Scheduler.injected
    (@Scheduler.onTimer throwing_host
       (@Scheduler.onDOMContentLoaded throwing_host early))
    ≡ₚ map Sandbox.props_id scripts.
Proof.
  apply (@every_script_injected_once throwing_host "2.9.5" ∅
           [script_at 1 "document-idle"; script_at 2 "document-start";
            script_at 3 "document-body"]).
  repeat (apply Forall_cons; split; [eexists; vm_compute; reflexivity |]).
  apply Forall_nil_2.
Defined.

Lemma load_after_DOMContentLoaded_witness :
  let scripts := [script_at 1 "document-idle"; script_at 2 "document-start";
                  script_at 3 "document-body"] in
  let ids p := map Sandbox.props_id (Scheduler.of_phase p scripts) in
  let s := @Scheduler.onLoadScripts throwing_host "2.9.5" (Some scripts) ∅
             false (@Scheduler.onDOMContentLoaded throwing_host Scheduler.init) in
  Scheduler.injected (@Scheduler.onDOMContentLoaded throwing_host Scheduler.init)
    = [] /\
  Scheduler.injected s = ids Scheduler.Start ++ ids Scheduler.End_ /\
  Scheduler.timers s = [0%nat] /\
  Scheduler.injected (@Scheduler.onTimer throwing_host s)
    = ids Scheduler.Start ++ ids Scheduler.End_ ++ ids Scheduler.Idle.
Proof.
  apply (@load_after_DOMContentLoaded throwing_host "2.9.5" ∅
           [script_at 1 "document-idle"; script_at 2 "document-start";
            script_at 3 "document-body"] false).
  repeat (apply Forall_cons; split; [eexists; vm_compute; reflexivity |]).
  apply Forall_nil_2.
Defined.

Lemma thrown_value_is_reported_once_witness :
  let A := script_at 1 "document-start" in
  let B := script_at 2 "document-start" in
  let s := @Scheduler.onLoadScripts throwing_host "2.9.5" (Some [A; B]) ∅ true
                                    Scheduler.init in
  let o := @Scheduler.onInjected throwing_host "VMfnk1" true
             (Some (Scheduler.ThrownValue "Error: x" (Some "x"))) s in
  let o' := @Scheduler.onInjected throwing_host "VMfnk3" true None (state_of o) in
  threw o = false /\
  Scheduler.errors (state_of o)
  = Scheduler.errors s
    ++ ["Error running script: " +:+ "1" +:+ Scheduler.newline +:+ "Error: x"
        +:+ (Scheduler.newline +:+ "x")] /\
  same_schedule s (state_of o) /\
  Scheduler.executed (state_of o') = Scheduler.executed s ++ ["1"; "2"].
Proof.
  apply (@thrown_value_is_reported_once throwing_host "VMfnk1" "VMink0" "1"
           "Error: x" (Some "x")
           (@Scheduler.onLoadScripts throwing_host "2.9.5"
              (Some [script_at 1 "document-start"; script_at 2 "document-start"])
              ∅ true Scheduler.init)
           "VMfnk3" "VMink2" "2" None).
  - vm_compute. reflexivity.
  - vm_compute. reflexivity.
Defined.
